(** * ShardWriter (src/imageomics/wds.py): a shallow embedding

    The development follows the Python class method by method.

    - [Ctypes] models the fixed-width cell behind the shared counter, a
      [multiprocessing.Value].
    - [Counter] models the critical section of [next_stream]
      ([with self.shard_counter.get_lock(): ...]) as an interleaving of
      several callers over one shared counter.
    - [PyFormat] models the fragment of [pattern % shard] that shard file
      name patterns use.
    - [Writer] models the instance attributes, the outside world (counter,
      files, archive writers, log) and the methods [__init__],
      [next_stream], [write], [finish], [close], [__enter__], [__exit__]
      in a state-and-exception monad.
    - [Ledger] and [Fleet] add the accounts of a session and several
      instances on one counter.
    - The modules whose names end in [Facts] or [More] hold the
      properties. *)

From Stdlib Require Import ZArith String Ascii Bool Lia DecimalString DecimalPos
  DecimalN QArith.QArith_base.
From stdpp Require Import base list.

Local Open Scope Z_scope.

(** ** The cell behind [multiprocessing.Value] *)

Module Ctypes.

(** [shard_counter] is a [multiprocessing.Value] made with its default
    lock: a lock around a ctypes cell of fixed width, whose typecode the
    caller chooses.  The integer typecodes are ['b' 'h' 'i' 'l' 'q']
    (signed) and ['B' 'H' 'I' 'L' 'Q'] (unsigned), of 8, 16, 32 or 64
    bits.  Reading [value] gives the integer in the cell; assigning to
    [value] does no overflow check and keeps the low bits of the integer
    assigned.  The floating-point typecodes ['f' 'd'] are left out. *)
Record cell : Type := Cell {
  signed : bool;
  bits : positive
}.

Definition modulus (c : cell) : Z := 2 ^ Z.pos (bits c).

(** The least and the greatest integer the cell holds. *)
Definition lo (c : cell) : Z :=
  if signed c then - 2 ^ (Z.pos (bits c) - 1) else 0.

Definition hi (c : cell) : Z :=
  if signed c then 2 ^ (Z.pos (bits c) - 1) - 1 else 2 ^ Z.pos (bits c) - 1.

(** What [value] reads after [value = z]. *)
Definition store (c : cell) (z : Z) : Z := (z - lo c) mod modulus c + lo c.

Definition int32 : cell := Cell true 32.   (* Value('i', ...) *)
Definition uint8 : cell := Cell false 8.   (* Value('B', ...) *)

End Ctypes.

(** ** The shared counter under concurrent claims *)

Module Counter.
Import Ctypes.

(** Where a caller stands inside

<<
    with self.shard_counter.get_lock():
        self.shard = self.shard_counter.value
        self.shard_counter.value += 1
>>

    [value += 1] is a load followed by a store, so it takes two steps.
    The store goes into the counter's cell, which keeps the low bits. *)
Inductive pc : Type :=
| Acquire                (* before get_lock().__enter__ *)
| ReadShard              (* lock held; next: self.shard = value *)
| LoadTmp (shard : Z)    (* next: tmp = value *)
| StoreTmp (shard tmp : Z) (* next: value = tmp + 1 *)
| Release (shard : Z)    (* next: get_lock().__exit__ *)
| Done (shard : Z).      (* left the with block; self.shard = shard *)

Record state : Type := State {
  value : Z;          (* shard_counter.value *)
  locked : bool;      (* whether some caller holds the lock *)
  callers : list pc
}.

(** One step of one caller on a counter with cell [c]. [None]: the caller
    cannot move (it waits for the lock, or it has finished). *)
Definition step_pc (c : cell) (p : pc) (v : Z) (l : bool)
    : option (pc * Z * bool) :=
  match p with
  | Acquire => if l then None else Some (ReadShard, v, true)
  | ReadShard => Some (LoadTmp v, v, l)
  | LoadTmp s => Some (StoreTmp s v, v, l)
  | StoreTmp s t => Some (Release s, store c (t + 1), l)
  | Release s => Some (Done s, v, false)
  | Done _ => None
  end.

Definition step (c : cell) (i : nat) (st : state) : option state :=
  match callers st !! i with
  | None => None
  | Some p =>
      match step_pc c p (value st) (locked st) with
      | None => None
      | Some (p', v', l') => Some (State v' l' (<[i := p']> (callers st)))
      end
  end.

(** A schedule names the caller that moves at each step. *)
Fixpoint run (c : cell) (sched : list nat) (st : state) : option state :=
  match sched with
  | [] => Some st
  | i :: rest =>
      match step c i st with
      | None => None
      | Some st' => run c rest st'
      end
  end.

Definition init (k : Z) (n : nat) : state := State k false (replicate n Acquire).

(** The schedule in which the callers go through the block one after the
    other. *)
Definition one_by_one (n : nat) : list nat :=
  flat_map (fun i => replicate 5 i) (seq 0 n).

Definition is_done (p : pc) : bool :=
  match p with Done _ => true | _ => false end.

Definition finished (st : state) : bool := forallb is_done (callers st).

(** The value of [self.shard] once the caller has assigned it. *)
Definition shard_of (p : pc) : option Z :=
  match p with
  | Acquire | ReadShard => None
  | LoadTmp s | StoreTmp s _ | Release s | Done s => Some s
  end.

Definition shards (st : state) : list Z := omap shard_of (callers st).

(** Steps a caller still has to take. *)
Definition todo (p : pc) : nat :=
  match p with
  | Acquire => 5 | ReadShard => 4 | LoadTmp _ => 3
  | StoreTmp _ _ => 2 | Release _ => 1 | Done _ => 0
  end%nat.

Definition measure (st : state) : nat := sum_list (todo <$> callers st).

(** Inside the with block: the caller holds the lock. *)
Definition in_cs (p : pc) : bool :=
  match p with
  | ReadShard | LoadTmp _ | StoreTmp _ _ | Release _ => true
  | Acquire | Done _ => false
  end.

(** The index a caller has taken, once its increment is stored. *)
Definition claimed (p : pc) : option Z :=
  match p with
  | Release s | Done s => Some s
  | _ => None
  end.

(** What a caller between its read and its store knows about the counter. *)
Definition pending_ok (v : Z) (p : pc) : Prop :=
  match p with
  | LoadTmp s => s = v
  | StoreTmp s t => s = v /\ t = v
  | _ => True
  end.

(** The lock does its work: at most the holder is inside the block. *)
Definition one_inside (st : state) : Prop :=
  length (filter (fun p => in_cs p = true) (callers st))
  = if locked st then 1%nat else 0%nat.

(** The invariant of the runs whose indices k, k+1, ... all fit the cell:
    the cell holds what was stored last, the indices taken so far are
    [k, k+1, ...] in some order, and the holder's local copies agree with
    the counter. *)
Record inv (c : cell) (k : Z) (st : state) : Prop := Inv {
  inv_lock : one_inside st;
  inv_range : lo c ≤ k ≤ hi c ∧ k + Z.of_nat (length (callers st)) - 1 ≤ hi c;
  inv_value : value st
              = store c (k + Z.of_nat (length (omap claimed (callers st))));
  inv_perm : omap claimed (callers st)
             ≡ₚ seqZ k (Z.of_nat (length (omap claimed (callers st))));
  inv_pending : Forall (pending_ok (value st)) (callers st)
}.

End Counter.

(** ** [pattern % shard]

    [self.fname = self.pattern % self.shard] applies Python's printf-style
    formatting to a [str] pattern and one [int] argument (a single value
    that is neither a tuple nor a mapping).  The scan below follows
    CPython's left-to-right processing: errors are raised in the order in
    which the scan meets them, and "not all arguments converted" is only
    checked once the whole pattern has been read.

    Modelled: literal text, [%%], the flags [- + space # 0], a decimal
    width, a decimal precision, one length modifier [h l L], and the
    conversions [d i u] and [s r a].  The conversions [x X o c e E f F g G]
    and a [*] width or precision are valid Python but are left out: they
    give [Unmodelled].  Widths and precisions are unbounded naturals. *)

Module PyFormat.

Local Open Scope string_scope.

Inductive outcome : Type :=
| Formatted (s : string)
| TypeError_not_all_converted      (* not all arguments converted ... *)
| TypeError_not_enough_arguments   (* not enough arguments for format string *)
| TypeError_requires_mapping       (* format requires a mapping *)
| ValueError_incomplete_format
| ValueError_unsupported (c : ascii)
| Unmodelled.

Record flags : Type := Flags {
  f_ljust : bool;   (* - *)
  f_sign : bool;    (* + *)
  f_blank : bool;   (* space *)
  f_alt : bool;     (* # *)
  f_zero : bool     (* 0 *)
}.

Definition no_flags : flags := Flags false false false false false.

Definition add_flag (f : flags) (c : ascii) : option flags :=
  match c with
  | "-"%char => Some (Flags true (f_sign f) (f_blank f) (f_alt f) (f_zero f))
  | "+"%char => Some (Flags (f_ljust f) true (f_blank f) (f_alt f) (f_zero f))
  | " "%char => Some (Flags (f_ljust f) (f_sign f) true (f_alt f) (f_zero f))
  | "#"%char => Some (Flags (f_ljust f) (f_sign f) (f_blank f) true (f_zero f))
  | "0"%char => Some (Flags (f_ljust f) (f_sign f) (f_blank f) (f_alt f) true)
  | _ => None
  end.

Definition digit_of (c : ascii) : option nat :=
  let n := nat_of_ascii c in
  if ((48 <=? n) && (n <=? 57))%nat then Some (n - 48)%nat else None.

(** Where the scan stands inside a conversion specification. *)
Inductive pstate : Type :=
| Text
| Start                                            (* just after % *)
| InFlags (f : flags)
| InWidth (f : flags) (w : nat)
| AfterDot (f : flags) (w : option nat)
| InPrec (f : flags) (w : option nat) (p : nat)
| AtConv (f : flags) (w : option nat) (p : option nat). (* after h, l or L *)

Fixpoint repeat_char (c : ascii) (n : nat) : string :=
  match n with
  | O => ""
  | S m => String c (repeat_char c m)
  end.

Fixpoint take_chars (n : nat) (s : string) : string :=
  match n, s with
  | S m, String c r => String c (take_chars m r)
  | _, _ => ""
  end.

(** Decimal digits of a non-negative integer, ["0"] for zero. *)
Definition digits (n : Z) : string :=
  NilZero.string_of_uint (N.to_uint (Z.to_N n)).

(** [str(n)] for an [int]. *)
Definition str_int (n : Z) : string :=
  if (n <? 0)%Z then "-" ++ digits (- n) else digits n.

(** [%d], [%i], [%u] of an [int]. *)
Definition format_long (f : flags) (w p : option nat) (n : Z) : string :=
  let ds := digits (Z.abs n) in
  let ds := repeat_char "0" (default 0%nat p - String.length ds) ++ ds in
  let sg := if (n <? 0)%Z then "-"
            else if f_sign f then "+"
            else if f_blank f then " " else "" in
  let pad := (default 0%nat w - (String.length sg + String.length ds))%nat in
  if f_ljust f then sg ++ ds ++ repeat_char " " pad
  else if f_zero f then sg ++ repeat_char "0" pad ++ ds
  else repeat_char " " pad ++ sg ++ ds.

(** [%s], [%r], [%a] of an [int]: [str(n)], cut to the precision, padded
    with spaces. *)
Definition format_str (f : flags) (w p : option nat) (n : Z) : string :=
  let s := str_int n in
  let s := match p with Some k => take_chars k s | None => s end in
  let pad := (default 0%nat w - String.length s)%nat in
  if f_ljust f then s ++ repeat_char " " pad else repeat_char " " pad ++ s.

(** What one character does to the scan. *)
Inductive fed : Type :=
| Goto (st : pstate)
| Emit (s : string) (arg_left : bool)
| Fail (o : outcome).

(** The conversion character, reached after a flag, a width, a precision
    or a length modifier, or as the first character after [%] when it is
    none of these.  It first asks for the next argument; [%] here is an
    unsupported character like any other (only the pair [%%] writes a
    percent sign, see [feed]). *)
Definition conversion (f : flags) (w p : option nat) (c : ascii)
    (arg : Z) (arg_left : bool) : fed :=
  if negb arg_left then Fail TypeError_not_enough_arguments
  else match c with
       | "d"%char | "i"%char | "u"%char => Emit (format_long f w p arg) false
       | "s"%char | "r"%char | "a"%char => Emit (format_str f w p arg) false
       | "x"%char | "X"%char | "o"%char | "c"%char
       | "e"%char | "E"%char | "f"%char | "F"%char
       | "g"%char | "G"%char => Fail Unmodelled
       | _ => Fail (ValueError_unsupported c)
       end.

Definition at_length (f : flags) (w p : option nat) (c : ascii)
    (arg : Z) (arg_left : bool) : fed :=
  match c with
  | "h"%char | "l"%char | "L"%char => Goto (AtConv f w p)
  | _ => conversion f w p c arg arg_left
  end.

Definition at_precision (f : flags) (w : option nat) (c : ascii)
    (arg : Z) (arg_left : bool) : fed :=
  if Ascii.eqb c "." then Goto (AfterDot f w)
  else at_length f w None c arg arg_left.

Definition at_width (f : flags) (c : ascii) (arg : Z) (arg_left : bool) : fed :=
  if Ascii.eqb c "*" then Fail Unmodelled
  else match digit_of c with
       | Some d => Goto (InWidth f d)
       | None => at_precision f None c arg arg_left
       end.

Definition feed (st : pstate) (c : ascii) (arg : Z) (arg_left : bool) : fed :=
  match st with
  | Text => if Ascii.eqb c "%" then Goto Start else Emit (String c "") arg_left
  | Start =>
      if Ascii.eqb c "%" then Emit "%" arg_left
      else if Ascii.eqb c "(" then Fail TypeError_requires_mapping
      else match add_flag no_flags c with
           | Some f => Goto (InFlags f)
           | None => at_width no_flags c arg arg_left
           end
  | InFlags f =>
      match add_flag f c with
      | Some f' => Goto (InFlags f')
      | None => at_width f c arg arg_left
      end
  | InWidth f w =>
      match digit_of c with
      | Some d => Goto (InWidth f (10 * w + d))
      | None => at_precision f (Some w) c arg arg_left
      end
  | AfterDot f w =>
      if Ascii.eqb c "*" then Fail Unmodelled
      else match digit_of c with
           | Some d => Goto (InPrec f w d)
           | None => at_length f w (Some 0%nat) c arg arg_left
           end
  | InPrec f w p =>
      match digit_of c with
      | Some d => Goto (InPrec f w (10 * p + d))
      | None => at_length f w (Some p) c arg arg_left
      end
  | AtConv f w p => conversion f w p c arg arg_left
  end.

Fixpoint scan (st : pstate) (arg : Z) (arg_left : bool) (acc : string)
    (s : string) : outcome :=
  match s with
  | EmptyString =>
      match st with
      | Text => if arg_left then TypeError_not_all_converted else Formatted acc
      | _ => ValueError_incomplete_format
      end
  | String c rest =>
      match feed st c arg arg_left with
      | Goto st' => scan st' arg arg_left acc rest
      | Emit out arg_left' => scan Text arg arg_left' (acc ++ out) rest
      | Fail o => o
      end
  end.

(** [pattern % n] *)
Definition format (pattern : string) (n : Z) : outcome :=
  scan Text n true "" pattern.

(** A pattern without a substitution site: every percent sign is part of
    a [%%] pair. *)
Fixpoint no_site (s : string) : bool :=
  match s with
  | EmptyString => true
  | String c rest =>
      if Ascii.eqb c "%" then
        match rest with
        | String c' rest' => Ascii.eqb c' "%" && no_site rest'
        | EmptyString => false
        end
      else no_site rest
  end.

End PyFormat.

(** ** The writer *)

Module Writer.

Local Open Scope string_scope.

(** [maxsize] is a Python [float] (default [3e9]).  [int >= float] compares
    exactly, so a finite float is taken as the rational it denotes. *)
Inductive pyfloat : Type :=
| Finite (q : Q)
| PosInf
| NegInf
| NaN.

(** [n >= x] for an [int] n and a [float] x *)
Definition int_ge_float (n : Z) (x : pyfloat) : bool :=
  match x with
  | Finite q => Qle_bool q (inject_Z n)
  | PosInf => false
  | NegInf => true
  | NaN => false
  end.

Definition default_maxcount : Z := 100000.
Definition default_maxsize : pyfloat := Finite (inject_Z 3000000000).

Inductive exn : Type :=
| AttributeError (attr : string)
| AssertionError
| FormatError (o : PyFormat.outcome)  (* what [pattern % shard] gave *)
| OSError (msg : string)
| OtherError (msg : string).         (* anything else a collaborator raises *)

Inductive Res (A : Type) : Type :=
| Ok (a : A)
| Raise (e : exn).
Arguments Ok {A} a.
Arguments Raise {A} e.

Inductive log_entry : Type :=
| Opened_shard (fname : string)          (* "Opened shard %s." *)
| Closed_shard (fname : option string).  (* "Closed shard %s." *)

(** *** State and exceptions

    A computation over a state [S] that returns or raises.  A raised
    exception keeps every change made to the state before it. *)
Definition Run (S A : Type) : Type := S -> Res A * S.

Definition ret {S A} (a : A) : Run S A := fun st => (Ok a, st).
Definition raise {S A} (e : exn) : Run S A := fun st => (Raise e, st).
Definition bind {S A B} (m : Run S A) (k : A -> Run S B) : Run S B :=
  fun st => match m st with
            | (Ok a, st') => k a st'
            | (Raise e, st') => (Raise e, st')
            end.

Notation "'let*' x ':=' m 'in' k" := (bind m (fun x => k))
  (at level 10, x pattern, m at level 100, k at level 200).
Notation "m ';;' k" := (bind m (fun _ => k))
  (at level 100, k at level 200, right associativity).

Section Model.

(** [KW]: the keyword arguments handed through to [TarWriter];
    [sample]: what [write] is given. *)
Context {KW sample : Type}.

(** An archive writer made by [webdataset.TarWriter(stream, **kw)], seen
    from outside: the file its stream was opened on, the records handed to
    it by calls of [write] that returned, and how often [close] was called
    on it. *)
Record Stream : Type := MkStream {
  s_file : string;
  s_kw : KW;
  s_records : list sample;
  s_closes : nat
}.

(** Everything outside the instance.  The counter lives here because all
    instances hold a reference to the same [multiprocessing.Value]; the
    cell it is stored in is [counter_cell] of the setting below. *)
Record World : Type := MkWorld {
  counter : Z;                (* shard_counter.value *)
  opened : list string;       (* open(fname, "wb") calls that returned *)
  streams : list Stream;      (* archive writers; a handle is an index *)
  log : list log_entry        (* logger.info calls *)
}.

(** The collaborators this class does not implement.  Each may look at the
    world when it decides; [None] means the call returns normally.  The
    counter is one of them: the caller makes it, and with it chooses the
    cell that assignments to [shard_counter.value] go into. *)
Record Env : Type := MkEnv {
  os_open : World -> string -> option exn;        (* open(fname, "wb") *)
  tar_new : World -> string -> KW -> option exn;  (* TarWriter(stream, **kw) *)
  tar_write : World -> nat -> sample -> Res Z;    (* tarstream.write(obj) *)
  tar_close : World -> nat -> option exn;         (* tarstream.close() *)
  counter_cell : Ctypes.cell                      (* Value(typecode, ...) *)
}.

(** Instance attributes.  [None] in an [option] field whose comment says
    "attribute" means the attribute does not exist ([del], or not yet
    assigned); [tarstream] and [fname] can also hold Python's [None]. *)
Record Obj : Type := MkObj {
  kw : KW;
  maxcount : Z;
  maxsize : pyfloat;
  tarstream : option (option nat);  (* attribute; Some None is Python None *)
  pattern : string;
  total : Z;
  count : option Z;                 (* attribute *)
  size : option Z;                  (* attribute *)
  fname : option string;            (* None is Python None *)
  shard : option Z                  (* attribute *)
}.

Definition set_tarstream (v : option (option nat)) (o : Obj) : Obj :=
  MkObj (kw o) (maxcount o) (maxsize o) v (pattern o) (total o)
        (count o) (size o) (fname o) (shard o).
Definition set_total (v : Z) (o : Obj) : Obj :=
  MkObj (kw o) (maxcount o) (maxsize o) (tarstream o) (pattern o) v
        (count o) (size o) (fname o) (shard o).
Definition set_count (v : option Z) (o : Obj) : Obj :=
  MkObj (kw o) (maxcount o) (maxsize o) (tarstream o) (pattern o) (total o)
        v (size o) (fname o) (shard o).
Definition set_size (v : option Z) (o : Obj) : Obj :=
  MkObj (kw o) (maxcount o) (maxsize o) (tarstream o) (pattern o) (total o)
        (count o) v (fname o) (shard o).
Definition set_fname (v : option string) (o : Obj) : Obj :=
  MkObj (kw o) (maxcount o) (maxsize o) (tarstream o) (pattern o) (total o)
        (count o) (size o) v (shard o).
Definition set_shard (v : option Z) (o : Obj) : Obj :=
  MkObj (kw o) (maxcount o) (maxsize o) (tarstream o) (pattern o) (total o)
        (count o) (size o) (fname o) v.

Definition set_counter (v : Z) (w : World) : World :=
  MkWorld v (opened w) (streams w) (log w).
Definition add_opened (f : string) (w : World) : World :=
  MkWorld (counter w) (opened w ++ [f]) (streams w) (log w).
Definition add_stream (s : Stream) (w : World) : World :=
  MkWorld (counter w) (opened w) (streams w ++ [s]) (log w).
Definition add_log (e : log_entry) (w : World) : World :=
  MkWorld (counter w) (opened w) (streams w) (log w ++ [e]).
Definition alter_stream (f : Stream -> Stream) (h : nat) (w : World) : World :=
  MkWorld (counter w) (opened w) (alter f h (streams w)) (log w).

Definition note_close (s : Stream) : Stream :=
  MkStream (s_file s) (s_kw s) (s_records s) (S (s_closes s)).
Definition note_record (x : sample) (s : Stream) : Stream :=
  MkStream (s_file s) (s_kw s) (s_records s ++ [x]) (s_closes s).

(** A method runs on the instance and the world. *)
Definition St : Type := Obj * World.
Definition M (A : Type) : Type := Run St A.

Definition self : M Obj := fun st => (Ok (fst st), st).
Definition world : M World := fun st => (Ok (snd st), st).
Definition assign (f : Obj -> Obj) : M unit := fun st => (Ok tt, (f (fst st), snd st)).
Definition effect (f : World -> World) : M unit := fun st => (Ok tt, (fst st, f (snd st))).

(** Reading an attribute that may not exist *)
Definition getattr {A} (name : string) (field : Obj -> option A) : M A :=
  let* o := self in
  match field o with
  | Some v => ret v
  | None => raise (AttributeError name)
  end.

(** [del self.name] *)
Definition delattr {A} (name : string) (field : Obj -> option A)
    (set : option A -> Obj -> Obj) : M unit :=
  getattr name field ;; assign (set None).

(** A call to a collaborator that returns nothing *)
Definition call (r : option exn) : M unit :=
  match r with
  | None => ret tt
  | Some e => raise e
  end.

Definition lift {A} (r : Res A) : M A :=
  match r with
  | Ok a => ret a
  | Raise e => raise e
  end.

Context (E : Env).

(** *** Methods *)

(** [finish]: lines 73-79 *)
Definition finish : M unit :=
  let* t := getattr "tarstream" tarstream in
  match t with
  | None => ret tt
  | Some h =>
      (let* w := world in
       effect (alter_stream note_close h) ;;
       call (tar_close E w h)) ;;
      (let* o := self in effect (add_log (Closed_shard (fname o)))) ;;
      (let* o := self in
       match fname o with
       | None => raise AssertionError
       | Some _ => ret tt
       end) ;;
      assign (set_tarstream (Some None))
  end.

(** The body of [with self.shard_counter.get_lock():], lines 46-48, run by
    a caller that gets the lock.  [value += 1] assigns [value + 1] to the
    counter's cell, which keeps what fits. *)
Definition claim : M unit :=
  (let* w := world in assign (set_shard (Some (counter w)))) ;;
  (let* w := world in
   effect (set_counter (Ctypes.store (counter_cell E) (counter w + 1)))).

(** [next_stream]: lines 42-55 *)
Definition next_stream : M unit :=
  finish ;;
  claim ;;
  let* f :=
    (let* o := self in
     let* s := getattr "shard" shard in
     match PyFormat.format (pattern o) s with
     | PyFormat.Formatted f => assign (set_fname (Some f)) ;; ret f
     | bad => raise (FormatError bad)
     end) in
  (let* w := world in call (os_open E w f) ;; effect (add_opened f)) ;;
  effect (add_log (Opened_shard f)) ;;
  (let* o := self in
   let* w := world in
   call (tar_new E w f (kw o)) ;;
   effect (add_stream (MkStream f (kw o) [] 0)) ;;
   assign (set_tarstream (Some (Some (length (streams w)))))) ;;
  assign (set_count (Some 0)) ;;
  assign (set_size (Some 0)).

(** The test of lines 62-66, with Python's left-to-right [or]. *)
Definition must_rotate : M bool :=
  let* t := getattr "tarstream" tarstream in
  match t with
  | None => ret true
  | Some _ =>
      let* c := getattr "count" count in
      let* o := self in
      if c >=? maxcount o then ret true
      else
        let* s := getattr "size" size in
        ret (int_ge_float s (maxsize o))
  end.

(** [write]: lines 57-71 *)
Definition write (obj : sample) : M unit :=
  (let* b := must_rotate in if b : bool then next_stream else ret tt) ;;
  let* sz :=
    (let* t := getattr "tarstream" tarstream in
     match t with
     | None => raise (AttributeError "write")  (* None has no write *)
     | Some h =>
         let* w := world in
         let* n := lift (tar_write E w h obj) in
         effect (alter_stream (note_record obj) h) ;;
         ret n
     end) in
  (let* c := getattr "count" count in assign (set_count (Some (c + 1)))) ;;
  (let* o := self in assign (set_total (total o + 1))) ;;
  (let* s := getattr "size" size in assign (set_size (Some (s + sz)))).

(** [close]: lines 81-87 *)
Definition close : M unit :=
  finish ;;
  delattr "tarstream" tarstream set_tarstream ;;
  delattr "shard" shard set_shard ;;
  delattr "count" count set_count ;;
  delattr "size" size set_size.

(** [__enter__] returns the instance; [__exit__] calls [close] and
    returns [None], so an exception of the block is not swallowed. *)
Definition enter : M unit := ret tt.
Definition exit : M unit := close.

(** The attribute assignments of [__init__], lines 26-37 *)
Definition fresh (pat : string) (mc : Z) (ms : pyfloat) (k : KW) : Obj :=
  MkObj k mc ms (Some None) pat 0 (Some 0) (Some 0) None None.

(** [ShardWriter(pattern, shard_counter, maxcount, maxsize, **kw)] in a
    world: what the constructor call gives, with the instance as
    [__init__] left it. *)
Definition init (pat : string) (mc : Z) (ms : pyfloat) (k : KW)
    (w : World) : Res unit * St :=
  next_stream (fresh pat mc ms k, w).

(** [for obj in samples: self.write(obj)] *)
Fixpoint write_all (objs : list sample) : M unit :=
  match objs with
  | [] => ret tt
  | obj :: rest => write obj ;; write_all rest
  end.

(** [with self: body] for an instance that exists already: [__enter__],
    the body, then [__exit__] whether the body returned or raised.  An
    exception of [__exit__] replaces the one of the body. *)
Definition with_block {A} (body : M A) : M A :=
  fun st =>
    match enter st with
    | (Raise e, st0) => (Raise e, st0)
    | (Ok _, st0) =>
        match body st0 with
        | (r, st1) =>
            match exit st1 with
            | (Ok _, st2) => (r, st2)
            | (Raise e', st2) => (Raise e', st2)
            end
        end
    end.

(** [with ShardWriter(pat, counter, mc, ms, **k) as sink:
         for obj in objs: sink.write(obj)] *)
Definition session (pat : string) (mc : Z) (ms : pyfloat) (k : KW)
    (objs : list sample) (w : World) : Res unit * St :=
  match init pat mc ms k w with
  | (Ok _, st) => with_block (write_all objs) st
  | (Raise e, st) => (Raise e, st)
  end.

(** How often [close] has been called on the archive writer with handle h *)
Definition closes_of (h : nat) (w : World) : option nat :=
  s_closes <$> streams w !! h.

(** The state of an instance between two method calls, as far as closing
    goes: of the archive writers made since there were n0 of them, the open
    one has not been closed and each other one has been closed once. *)
Definition tidy (n0 : nat) (st : St) : Prop :=
  match tarstream (fst st) with
  | None => False
  | Some None =>
      ∀ h s, (n0 <= h)%nat → streams (snd st) !! h = Some s → s_closes s = 1%nat
  | Some (Some h0) =>
      (n0 <= h0)%nat ∧ (h0 < length (streams (snd st)))%nat ∧
      is_Some (fname (fst st)) ∧
      ∀ h s, (n0 <= h)%nat → streams (snd st) !! h = Some s →
             s_closes s = if decide (h = h0) then 0%nat else 1%nat
  end.

(** [tidy], and the attributes [close] deletes all exist. *)
Definition ready (n0 : nat) (st : St) : Prop :=
  tidy n0 st ∧ (n0 <= length (streams (snd st)))%nat ∧
  is_Some (shard (fst st)) ∧ is_Some (count (fst st)) ∧
  is_Some (size (fst st)).

End Model.

Arguments Stream : clear implicits.
Arguments World : clear implicits.
Arguments Env : clear implicits.
Arguments Obj : clear implicits.
Arguments St : clear implicits.
Arguments M : clear implicits.

(** *** A concrete setting used in examples

    No keyword arguments; a sample is the byte count its write reports,
    or [None] for a sample whose write raises.  Files always open and
    archive writers always close. *)
Definition sized_on (c : Ctypes.cell) : Env unit (option Z) :=
  MkEnv (fun _ _ => None) (fun _ _ _ => None)
        (fun _ _ x => match x with
                      | Some n => Ok n
                      | None => Raise (OSError "write failed")
                      end)
        (fun _ _ => None)
        c.

(** The counter is a [Value('i', ...)]. *)
Definition sized : Env unit (option Z) := sized_on Ctypes.int32.

Definition world0 (k : Z) : World unit (option Z) := MkWorld k [] [] [].

(** A new instance with maxcount 3 on a counter at 0 *)
Definition demo3 : St unit (option Z) :=
  Eval vm_compute in
    snd (init sized "shard-%06d.tar" 3 default_maxsize tt (world0 0)).

(** A new instance with maxcount 1000 and maxsize 10 *)
Definition demo_cap : St unit (option Z) :=
  Eval vm_compute in
    snd (init sized "shard-%06d.tar" 1000 (Finite (inject_Z 10)) tt (world0 0)).

(** [demo3] after three writes, the second of which raised *)
Definition demo_raised : St unit (option Z) :=
  Eval vm_compute in snd (write_all sized [Some 1; None; Some 2] demo3).

(** A new instance on a counter that holds the greatest 32-bit integer *)
Definition demo_last : St unit (option Z) :=
  Eval vm_compute in
    snd (init sized "shard-%06d.tar" default_maxcount default_maxsize tt
           (world0 2147483647)).

(** An instance with maxcount 1 after one write of 5 bytes: its shard is
    full. *)
Definition demo_full : St unit (option Z) :=
  Eval vm_compute in
    snd (write sized (Some 5)
           (snd (init sized "shard-%06d.tar" 1 default_maxsize tt (world0 0)))).

End Writer.

(** ** Reading a formatted index back *)

Module PyFormatMore.
Import PyFormat.

(** The conversion pads with zeros or not at all, so that what [%d] writes
    is a sign followed by decimal digits. *)
Definition zero_padded (f : flags) (w : option nat) : bool :=
  negb (f_ljust f) && (f_zero f || match w with None => true | Some _ => false end).

(** The number a string of decimal digits denotes, leading zeros allowed *)
Definition value (s : string) : option N :=
  option_map N.of_uint (NilEmpty.uint_of_string s).

End PyFormatMore.

(** ** Accounts of a session *)

Module Ledger.
Import Writer.

Section Ledger.
Context {KW sample : Type}.

(** The records held by the archive writers made since there were n0 of
    them, in the order of the shards. *)
Definition written (n0 : nat) (w : World KW sample) : list sample :=
  concat (s_records <$> drop n0 (streams w)).

(** What ties the instance to the archive writers it made, when no other
    instance makes any in between: the open one is the newest, [count] is
    the number of records it holds, and none holds more than maxcount
    records (one record, if maxcount is below 1). *)
Definition snug (n0 : nat) (st : St KW sample) : Prop :=
  (n0 <= length (streams (snd st)))%nat ∧
  is_Some (count (fst st)) ∧ is_Some (size (fst st)) ∧
  match tarstream (fst st) with
  | None => False
  | Some None => True
  | Some (Some h) =>
      length (streams (snd st)) = S h ∧ (n0 <= h)%nat ∧
      ∃ s, streams (snd st) !! h = Some s ∧
           count (fst st) = Some (Z.of_nat (length (s_records s)))
  end ∧
  ∀ h s, (n0 <= h)%nat → streams (snd st) !! h = Some s →
         Z.of_nat (length (s_records s)) <= Z.max (maxcount (fst st)) 1.

(** While a shard is open, [fname] is the pattern formatted with
    [shard]. *)
Definition named (o : Obj KW) : Prop :=
  match tarstream o with
  | Some (Some _) =>
      ∃ s f, shard o = Some s ∧ fname o = Some f ∧
             PyFormat.format (pattern o) s = PyFormat.Formatted f
  | _ => True
  end.

(** What [next_stream] and [write] may do to the counter and to [shard]:
    leave both alone, or take the counter's value as [shard] and store
    its successor in the counter's cell [c]. *)
Definition index_step (c : Ctypes.cell) (st st' : St KW sample) : Prop :=
  (counter (snd st') = counter (snd st) ∧ shard (fst st') = shard (fst st)) ∨
  (counter (snd st') = Ctypes.store c (counter (snd st) + 1) ∧
   shard (fst st') = Some (counter (snd st))).

(** What a method call may do to the list of opened files: nothing
    (with or without taking an index), or add the name the pattern gives
    for the counter's value while taking that index. *)
Definition opens (c : Ctypes.cell) (st st' : St KW sample) : Prop :=
  pattern (fst st') = pattern (fst st) ∧
  ((opened (snd st') = opened (snd st) ∧
    (counter (snd st') = counter (snd st) ∨
     counter (snd st') = Ctypes.store c (counter (snd st) + 1))) ∨
   (∃ f, opened (snd st') = opened (snd st) ++ [f] ∧
         PyFormat.format (pattern (fst st)) (counter (snd st))
           = PyFormat.Formatted f ∧
         counter (snd st') = Ctypes.store c (counter (snd st) + 1))).

End Ledger.
End Ledger.

(** ** Several instances on one counter

    Instances made and used one call at a time, in any order, in one
    world.  What a call returns or raises is left to the caller; the
    instance and the world keep what the call did. *)

Module Fleet.
Import Writer.

Section Fleet.
Context {KW sample : Type} (E : Env KW sample).

Inductive call : Type :=
| New (pat : string) (mc : Z) (ms : pyfloat) (k : KW)
| Write (i : nat) (obj : sample)
| Finish (i : nat)
| Close (i : nat)
| NextStream (i : nat).

Definition fleet : Type := list (Obj KW) * World KW sample.

(** A method call on instance i; there is nothing to call if i names no
    instance. *)
Definition on (i : nat) (m : M KW sample unit) (fl : fleet) : fleet :=
  match fst fl !! i with
  | None => fl
  | Some o =>
      match m (o, snd fl) with
      | (_, (o', w')) => (<[i := o']> (fst fl), w')
      end
  end.

(** A constructor call that raises leaves no instance behind. *)
Definition do_call (c : call) (fl : fleet) : fleet :=
  match c with
  | New pat mc ms k =>
      match init E pat mc ms k (snd fl) with
      | (Ok _, (o, w')) => (fst fl ++ [o], w')
      | (Raise _, (_, w')) => (fst fl, w')
      end
  | Write i obj => on i (write E obj) fl
  | Finish i => on i (finish E) fl
  | Close i => on i (close E) fl
  | NextStream i => on i (next_stream E) fl
  end.

Fixpoint do_calls (cs : list call) (fl : fleet) : fleet :=
  match cs with
  | [] => fl
  | c :: rest => do_calls rest (do_call c fl)
  end.

(** What the four methods have in common: the counter stays (and
    [shard] stays or is deleted), or the successor of the counter's value
    is stored in its cell and the old value is [shard]. *)
Definition tame (m : M KW sample unit) : Prop :=
  ∀ st,
    (counter (snd (snd (m st))) = counter (snd st) ∧
     (shard (fst (snd (m st))) = shard (fst st) ∨
      shard (fst (snd (m st))) = None)) ∨
    (counter (snd (snd (m st)))
       = Ctypes.store (counter_cell E) (counter (snd st) + 1) ∧
     shard (fst (snd (m st))) = Some (counter (snd st))).

(** The counter holds an integer of its cell and can take [n] more
    increments before it reaches the greatest one. *)
Definition room (n : nat) (w : World KW sample) : Prop :=
  Ctypes.lo (counter_cell E) <= counter w ∧
  counter w + Z.of_nat n <= Ctypes.hi (counter_cell E).

(** Every index held is below the counter, and no two instances hold the
    same one. *)
Definition fair (fl : fleet) : Prop :=
  ∀ i o s, fst fl !! i = Some o → shard o = Some s →
    s < counter (snd fl) ∧
    ∀ j o', j ≠ i → fst fl !! j = Some o' → shard o' ≠ Some s.

(** A constructor call uses the pattern [pat]. *)
Definition same_pattern (pat : string) (c : call) : Prop :=
  match c with
  | New p _ _ _ => p = pat
  | _ => True
  end.

(** All instances have the pattern [pat], and the files opened since
    there were n0 of them are the names of distinct indices below the
    counter. *)
Definition filed (pat : string) (n0 : nat) (fl : fleet) : Prop :=
  (∀ i o, fst fl !! i = Some o → pattern o = pat) ∧
  (n0 <= length (opened (snd fl)))%nat ∧
  ∃ idxs,
    Forall2 (λ f s, PyFormat.format pat s = PyFormat.Formatted f)
            (drop n0 (opened (snd fl))) idxs ∧
    Forall (λ s, s < counter (snd fl)) idxs ∧
    NoDup idxs.

End Fleet.
End Fleet.

(** ** Settings used in examples *)

Module Demo.
Import Writer Fleet.

Definition shard_pattern : string := "shard-%06d.tar".

(** Two instances with maxcount 1 on one counter, written to in turn;
    the last write raises. *)
Definition fleet_calls : list (@call unit (option Z)) :=
  [New shard_pattern 1 default_maxsize tt;
   New shard_pattern 1 default_maxsize tt;
   Write 0 (Some 1); Write 1 (Some 1);
   Write 0 (Some 1); Write 1 None].

(** Two instances, then 255 more rotations of the second one *)
Definition crowded_calls : list (@call unit (option Z)) :=
  [New shard_pattern 1 default_maxsize tt;
   New shard_pattern 1 default_maxsize tt] ++ replicate 255 (NextStream 1).

(** Five samples for a session with maxcount 2; the fourth write raises. *)
Definition session_samples : list (option Z) :=
  [Some 1; Some 2; Some 3; None; Some 5].

(** The instance of that session as the constructor leaves it, and as the
    writes leave it *)
Definition session_start : St unit (option Z) :=
  Eval vm_compute in
    snd (init sized shard_pattern 2 default_maxsize tt (world0 0)).

Definition session_written : St unit (option Z) :=
  Eval vm_compute in snd (write_all sized session_samples session_start).

(** [demo3] after [finish], and after a write of 4 bytes that follows *)
Definition demo3_finished : St unit (option Z) :=
  Eval vm_compute in snd (finish sized demo3).

Definition demo3_rewritten : St unit (option Z) :=
  Eval vm_compute in snd (write sized (Some 4) demo3_finished).

(** [demo_cap] (maxsize 10) after one write of 6 bytes, after a second
    one, and after a third one *)
Definition cap_one : St unit (option Z) :=
  Eval vm_compute in snd (write sized (Some 6) demo_cap).

Definition cap_two : St unit (option Z) :=
  Eval vm_compute in snd (write sized (Some 6) cap_one).

Definition cap_three : St unit (option Z) :=
  Eval vm_compute in snd (write sized (Some 6) cap_two).

End Demo.

(** * Properties *)

(** ** The counter's cell *)

Module CtypesFacts.
Import Ctypes.

Lemma modulus_pos c : 0 < modulus c.
Proof. unfold modulus. apply Z.pow_pos_nonneg; lia. Qed.

Lemma span c : hi c - lo c + 1 = modulus c.
Proof.
  unfold hi, lo, modulus. destruct (signed c); [|lia].
  replace (Z.pos (bits c)) with (Z.succ (Z.pos (bits c) - 1)) at 3 by lia.
  rewrite Z.pow_succ_r by lia. lia.
Qed.

(** The cell always holds an integer of its range. *)
Lemma store_range c z : lo c ≤ store c z ≤ hi c.
Proof.
  pose proof (span c). pose proof (modulus_pos c).
  unfold store. pose proof (Z.mod_pos_bound (z - lo c) (modulus c)). lia.
Qed.

(** An integer of the range is stored as it is. *)
Lemma store_id c z : lo c ≤ z ≤ hi c → store c z = z.
Proof.
  intros Hz. pose proof (span c).
  unfold store. rewrite Z.mod_small; lia.
Qed.

(** One past the greatest integer is stored as the least. *)
Lemma store_wraps c : store c (hi c + 1) = lo c.
Proof.
  pose proof (span c). pose proof (modulus_pos c). unfold store.
  replace (hi c + 1 - lo c) with (modulus c) by lia.
  rewrite Z.mod_same; lia.
Qed.

End CtypesFacts.

(** ** The shared counter *)

Module CounterFacts.
Import Ctypes Counter CtypesFacts.

(** A step rewrites one position of the caller list. *)
Lemma step_inv_shape c i st st' :
  step c i st = Some st' →
  ∃ l1 p l2 p',
    callers st = l1 ++ p :: l2 ∧ length l1 = i ∧
    step_pc c p (value st) (locked st) = Some (p', value st', locked st') ∧
    callers st' = l1 ++ p' :: l2.
Proof.
  unfold step. intros H.
  destruct (callers st !! i) as [p|] eqn:Hp; [|done].
  destruct (step_pc c p (value st) (locked st)) as [[[p' v'] l']|] eqn:Hs; [|done].
  injection H as <-. simpl.
  exists (take i (callers st)), p, (drop (S i) (callers st)), p'.
  pose proof (lookup_lt_Some _ _ _ Hp) as Hlt.
  split_and!.
  - by rewrite take_drop_middle.
  - rewrite length_take. lia.
  - done.
  - by apply insert_take_drop.
Qed.

Lemma step_length c i st st' :
  step c i st = Some st' → length (callers st') = length (callers st).
Proof.
  intros H. destruct (step_inv_shape _ _ _ _ H) as (l1 & p & l2 & p' & -> & _ & _ & ->).
  by rewrite !length_app.
Qed.

Lemma run_length c sched : ∀ st st',
  run c sched st = Some st' → length (callers st') = length (callers st).
Proof.
  induction sched as [|i rest IH]; simpl; intros st st' H.
  - by simplify_eq.
  - destruct (step c i st) as [st1|] eqn:Hs; [|done].
    rewrite (IH _ _ H). eauto using step_length.
Qed.

(** *** The lock *)

Lemma init_one_inside k n : one_inside (init k n).
Proof. unfold one_inside. simpl. induction n; simpl; auto. Qed.

Lemma step_one_inside c i st st' :
  step c i st = Some st' → one_inside st → one_inside st'.
Proof.
  unfold one_inside. intros Hstep Hlock.
  destruct (step_inv_shape _ _ _ _ Hstep) as (l1 & p & l2 & p' & Hl & _ & Hpc & Hl').
  rewrite Hl in Hlock. rewrite Hl'. clear Hl Hl'.
  rewrite filter_app, filter_cons, length_app in Hlock.
  rewrite filter_app, filter_cons, length_app.
  destruct st' as [v' lk' cs']; simpl in *.
  destruct p; simpl in Hpc; try destruct (locked st) eqn:Hlk; simplify_eq;
    simpl in *; lia.
Qed.

Lemma run_one_inside c sched : ∀ st st',
  run c sched st = Some st' → one_inside st → one_inside st'.
Proof.
  induction sched as [|i rest IH]; simpl; intros st st' H Hi.
  - by simplify_eq.
  - destruct (step c i st) as [st1|] eqn:Hs; [|done].
    eauto using step_one_inside.
Qed.

(** *** The indices *)

Lemma no_cs_pending v (l : list pc) :
  filter (fun p => in_cs p = true) l = [] → Forall (pending_ok v) l.
Proof.
  induction l as [|p l IH]; [constructor|].
  rewrite filter_cons. destruct p; simpl; try done;
    intros H; constructor; simpl; auto.
Qed.

Lemma claimed_length (l : list pc) :
  (length (omap claimed l) ≤ length l)%nat.
Proof.
  induction l as [|p l IH]; [done|].
  change (omap claimed (p :: l))
    with (match claimed p with Some y => y :: omap claimed l | None => omap claimed l end).
  destruct (claimed p); simpl; lia.
Qed.

Lemma init_inv c k n :
  lo c ≤ k ≤ hi c → k + Z.of_nat n - 1 ≤ hi c → inv c k (init k n).
Proof.
  intros Hk Hhi.
  assert (Hc : omap claimed (replicate n Acquire) = []).
  { clear Hhi. induction n; simpl; auto. }
  split; simpl.
  - apply init_one_inside.
  - rewrite length_replicate. split; assumption.
  - rewrite Hc. simpl. rewrite Z.add_0_r, store_id; done.
  - rewrite Hc. done.
  - clear Hhi Hc. induction n; simpl; constructor; simpl; auto.
Qed.

Lemma step_preserves_inv c k i st st' :
  step c i st = Some st' → inv c k st → inv c k st'.
Proof.
  intros Hstep [Hlock Hrange Hval Hperm Hpend].
  pose proof (step_one_inside _ _ _ _ Hstep Hlock) as Hlock'.
  pose proof (step_length _ _ _ _ Hstep) as Hlen.
  unfold one_inside in Hlock.
  destruct (step_inv_shape _ _ _ _ Hstep) as (l1 & p & l2 & p' & Hl & _ & Hpc & Hl').
  split; [done|by rewrite Hlen|..]; clear Hlock' Hlen.
  all: rewrite Hl in *; clear Hl; rewrite Hl'; clear Hl'.
  all: rewrite filter_app, filter_cons, length_app in Hlock.
  all: rewrite omap_app, length_app in Hval, Hperm.
  all: rewrite ?omap_app, ?length_app.
  all: apply Forall_app in Hpend as [Hp1 Hp2].
  all: apply Forall_cons in Hp2 as [Hp Hp2].
  all: destruct st' as [v' lk' cs']; simpl in Hpc |- *.
  all: destruct p; simpl in Hpc; try destruct (locked st) eqn:Hlk;
    simplify_eq; simpl in *; try done.
  all: try (apply Forall_app; split; [done|]; constructor; simpl; auto; fail).
  (* what remains is the store *)
  all: change (list_omap pc Z claimed l2) with (omap claimed l2) in *.
  all: destruct Hp as [-> ->].
  all: assert (filter (λ p, in_cs p = true) l1 = []
               ∧ filter (λ p, in_cs p = true) l2 = []) as [H1 H2]
    by (destruct (filter _ l1), (filter _ l2); simpl in *; try lia; done).
  all: pose proof (claimed_length l1); pose proof (claimed_length l2).
  all: rewrite length_app in Hrange; simpl in Hrange.
  all: assert (Hv : value st
                    = k + Z.of_nat (length (omap claimed l1)
                                    + length (omap claimed l2)))
    by (rewrite Hval; apply store_id; lia).
  - rewrite Hv. f_equal. lia.
  - rewrite Hv. f_equal. lia.
  - rewrite Nat.add_succ_r, seqZ_S, <- Hperm, <- Hv.
    rewrite <- Permutation_middle, <- Permutation_cons_append. done.
  - rewrite Nat.add_succ_r, seqZ_S, <- Hperm, <- Hv.
    rewrite <- Permutation_middle, <- Permutation_cons_append. done.
  - apply Forall_app; split; [by apply no_cs_pending|].
    constructor; [done|by apply no_cs_pending].
  - apply Forall_app; split; [by apply no_cs_pending|].
    constructor; [done|by apply no_cs_pending].
Qed.

Lemma run_preserves_inv c k sched : ∀ st st',
  run c sched st = Some st' → inv c k st → inv c k st'.
Proof.
  induction sched as [|i rest IH]; simpl; intros st st' H Hi.
  - by simplify_eq.
  - destruct (step c i st) as [st1|] eqn:Hs; [|done].
    eauto using step_preserves_inv.
Qed.

Lemma finished_shards (l : list pc) :
  forallb is_done l = true → omap shard_of l = omap claimed l ∧ length (omap claimed l) = length l.
Proof.
  induction l as [|p l IH]; simpl; [done|].
  intros [Hp Hl]%andb_true_iff. destruct (IH Hl) as [IH1 IH2].
  destruct p; simpl in *; try done. split; f_equal; assumption.
Qed.

(** *** Progress *)

Lemma step_measure c i st st' :
  step c i st = Some st' → (measure st' < measure st)%nat.
Proof.
  intros H. destruct (step_inv_shape _ _ _ _ H) as (l1 & p & l2 & p' & Hl & _ & Hpc & Hl').
  unfold measure. rewrite Hl, Hl', !fmap_app, !sum_list_with_app, !fmap_cons. simpl.
  assert (todo p' < todo p)%nat; [|lia].
  destruct p; simpl in Hpc; try destruct (locked st); simplify_eq; simpl; lia.
Qed.

Lemma waiting_caller (l : list pc) :
  forallb is_done l = false → filter (λ p, in_cs p = true) l = [] →
  ∃ i, l !! i = Some Acquire.
Proof.
  induction l as [|p l IH]; simpl; [done|].
  rewrite filter_cons. destruct p; simpl; try done.
  - intros _ _. by exists 0%nat.
  - intros H1 H2. destruct (IH H1 H2) as [i Hi]. by exists (S i).
Qed.

(** No reachable state is stuck before every caller has left the block. *)
Lemma progress c st :
  one_inside st → finished st = false → ∃ i st', step c i st = Some st'.
Proof.
  unfold one_inside. intros Hlock Hfin. unfold finished in Hfin.
  assert (∃ i p, callers st !! i = Some p ∧
                 is_Some (step_pc c p (value st) (locked st))) as (i & p & Hi & [[[p' v'] l'] Hs]).
  { destruct (locked st) eqn:Hlk.
    - destruct (filter (λ p, in_cs p = true) (callers st)) as [|p ?] eqn:Hf; [done|].
      assert (p ∈ filter (λ p, in_cs p = true) (callers st)) as Hin
        by (rewrite Hf; left).
      apply list_elem_of_filter in Hin as [Hcs Hin].
      apply list_elem_of_lookup in Hin as [i Hi].
      exists i, p. split; [done|]. destruct p; simpl in *; try done; eauto.
    - apply length_zero_iff_nil in Hlock.
      destruct (waiting_caller _ Hfin Hlock) as [i Hi].
      exists i, Acquire. split; [done|]. simpl. eauto.
  }
  exists i. unfold step. rewrite Hi, Hs. eauto.
Qed.

(** Whatever has happened so far, the callers can all leave the block. *)
Lemma can_finish c : ∀ m st,
  (measure st < m)%nat → one_inside st →
  ∃ sched st', run c sched st = Some st' ∧ finished st' = true.
Proof.
  induction m as [|m IH]; intros st Hm Hinv; [lia|].
  destruct (finished st) eqn:Hfin.
  - exists [], st. done.
  - destruct (progress c _ Hinv Hfin) as (i & st1 & Hs).
    destruct (IH st1) as (sched & st' & Hrun & Hdone).
    + pose proof (step_measure _ _ _ _ Hs). lia.
    + eauto using step_one_inside.
    + exists (i :: sched), st'. simpl. rewrite Hs. done.
Qed.

Lemma every_run_can_finish c k n sched st :
  run c sched (init k n) = Some st →
  ∃ sched' st', run c sched' st = Some st' ∧ finished st' = true.
Proof.
  intros H. eapply can_finish; [apply Nat.lt_succ_diag_r|].
  eapply run_one_inside; [exact H|apply init_one_inside].
Qed.

(** *** Which indices the callers get *)

(** C1, as the code has it.  N callers each run the lock-protected
    read-and-increment of [next_stream] once on a counter that holds k, in
    any interleaving, and k, ..., k+N-1 all lie in the range of the
    counter's cell.  When all have left the block, the indices they hold
    are exactly k, k+1, ..., k+N-1, each once (a permutation, so no
    duplicate and no gap), and the counter holds what storing k+N
    leaves in the cell. *)
Theorem counter_uniqueness (c : cell) (k : Z) (n : nat) (sched : list nat)
    (st : state) :
  lo c ≤ k ≤ hi c →
  k + Z.of_nat n - 1 ≤ hi c →
  run c sched (init k n) = Some st →
  finished st = true →
  shards st ≡ₚ seqZ k (Z.of_nat n) ∧
  NoDup (shards st) ∧
  length (shards st) = n ∧
  value st = store c (k + Z.of_nat n) ∧
  (k + Z.of_nat n ≤ hi c → value st = k + Z.of_nat n).
Proof.
  intros Hk Hhi Hrun Hfin.
  pose proof (run_preserves_inv c k _ _ _ Hrun (init_inv c k n Hk Hhi))
    as [_ _ Hval Hperm _].
  pose proof (run_length _ _ _ _ Hrun) as Hlen.
  unfold init in Hlen; simpl in Hlen. rewrite length_replicate in Hlen.
  destruct (finished_shards _ Hfin) as [Heq Hn].
  unfold shards. rewrite Heq, Hn, Hlen in *.
  split_and!; try done.
  - rewrite Hperm. apply NoDup_seqZ.
  - intros Hfit. rewrite Hval. apply store_id. lia.
Qed.

(** Two callers on a 32-bit counter at 5; the second caller gets the lock
    first. *)
Lemma counter_uniqueness_witness :
  let st := State 7 false [Done 6; Done 5] in
  lo int32 ≤ 5 ≤ hi int32 ∧ 5 + Z.of_nat 2 - 1 ≤ hi int32 ∧
  run int32 [1; 1; 1; 1; 1; 0; 0; 0; 0; 0]%nat (init 5 2) = Some st ∧
  finished st = true ∧
  shards st ≡ₚ seqZ 5 2 ∧ NoDup (shards st) ∧
  length (shards st) = 2%nat ∧ value st = store int32 (5 + 2) ∧
  (5 + 2 ≤ hi int32 → value st = 5 + 2).
Proof.
  assert (H1 : lo int32 ≤ 5 ≤ hi int32) by (vm_compute; split; discriminate).
  assert (H2 : 5 + Z.of_nat 2 - 1 ≤ hi int32) by (vm_compute; discriminate).
  split; [exact H1|]. split; [exact H2|].
  split; [reflexivity|]. split; [reflexivity|].
  apply (counter_uniqueness int32 5 2 [1; 1; 1; 1; 1; 0; 0; 0; 0; 0]%nat);
    [exact H1|exact H2|reflexivity|reflexivity].
Defined.

(** C1 as first stated fails where the indices leave the cell: two
    callers on a [Value('i', 2**31 - 1)].  The second index is the least
    32-bit integer, not the successor of the first. *)
Lemma counter_wraps_around :
  let k := 2147483647 in
  let st := State (-2147483647) false [Done 2147483647; Done (-2147483648)] in
  run int32 [0; 0; 0; 0; 0; 1; 1; 1; 1; 1]%nat (init k 2) = Some st ∧
  finished st = true ∧
  shards st = [2147483647; -2147483648] ∧
  ¬ (shards st ≡ₚ seqZ k 2) ∧
  value st ≠ k + 2.
Proof.
  cbv zeta. split; [vm_compute; reflexivity|]. split; [reflexivity|].
  split; [reflexivity|]. split; [|discriminate].
  intros Hp.
  assert (Hin : -2147483648 ∈ seqZ 2147483647 2).
  { rewrite <- Hp. vm_compute. right. left. }
  vm_compute in Hin.
  apply elem_of_cons in Hin as [Hin|Hin]; [discriminate|].
  apply elem_of_cons in Hin as [Hin|Hin]; [discriminate|].
  by apply elem_of_nil in Hin.
Qed.

(** On an 8-bit counter the 257th claim gets the index of the first. *)
Lemma wrapped_index_repeats :
  ∃ st, run uint8 (one_by_one 257) (init 0 257) = Some st ∧
        finished st = true ∧
        shards st !! 0%nat = Some 0 ∧ shards st !! 256%nat = Some 0 ∧
        ¬ NoDup (shards st).
Proof.
  destruct (run uint8 (one_by_one 257) (init 0 257)) as [st|] eqn:Hrun;
    [|vm_compute in Hrun; discriminate].
  exists st. split; [done|].
  assert (Hs : shards st = seqZ 0 256 ++ [0]).
  { assert (H : shards <$> run uint8 (one_by_one 257) (init 0 257)
                = Some (seqZ 0 256 ++ [0])) by (vm_compute; reflexivity).
    rewrite Hrun in H. by injection H. }
  assert (Hf : finished <$> run uint8 (one_by_one 257) (init 0 257) = Some true)
    by (vm_compute; reflexivity).
  rewrite Hrun in Hf. injection Hf as Hf.
  split; [done|]. rewrite Hs.
  split; [reflexivity|]. split; [vm_compute; reflexivity|].
  intros Hnd. apply NoDup_app in Hnd as (_ & Hnd & _).
  apply (Hnd 0); [|left]. apply elem_of_seqZ. lia.
Qed.

(** A caller that runs alone takes the counter's value and stores its
    successor: what [Writer.claim] does in one go. *)
Lemma lone_caller (c : cell) (v : Z) :
  run c (replicate 5 0%nat) (State v false [Acquire])
    = Some (State (store c (v + 1)) false [Done v]).
Proof. reflexivity. Qed.

End CounterFacts.

(** ** Formatting *)

Module PyFormatFacts.
Import PyFormat.
Local Open Scope string_scope.

Example format_shard_name :
  format "shard-%06d.tar" 3 = Formatted "shard-000003.tar".
Proof. vm_compute. reflexivity. Qed.

Example format_plain_str :
  format "part-%s.tar" 12 = Formatted "part-12.tar".
Proof. vm_compute. reflexivity. Qed.

Example format_without_site :
  format "shard.tar" 3 = TypeError_not_all_converted.
Proof. vm_compute. reflexivity. Qed.

Example format_escaped_percent_only :
  format "100%%.tar" 3 = TypeError_not_all_converted.
Proof. vm_compute. reflexivity. Qed.

Example format_two_sites :
  format "%d-of-%d.tar" 3 = TypeError_not_enough_arguments.
Proof. vm_compute. reflexivity. Qed.

Example format_trailing_percent :
  format "shard-%" 3 = ValueError_incomplete_format.
Proof. vm_compute. reflexivity. Qed.

End PyFormatFacts.

(** ** The writer *)

Module WriterFacts.
Import Writer.

Ltac unfold_m :=
  unfold delattr in *; unfold getattr, call, lift in *;
  unfold bind, ret, raise, self, world, assign, effect in *.

Section Facts.
Context {KW sample : Type} (E : Env KW sample).
Implicit Types (o : Obj KW) (w : World KW sample) (st : St KW sample).

(** What [finish] does, case by case. *)
Lemma finish_spec o w :
  finish E (o, w) =
  match tarstream o with
  | None => (Raise (AttributeError "tarstream"), (o, w))
  | Some None => (Ok tt, (o, w))
  | Some (Some h) =>
      let w1 := alter_stream note_close h w in
      match tar_close E w h with
      | Some e => (Raise e, (o, w1))
      | None =>
          let w2 := add_log (Closed_shard (fname o)) w1 in
          match fname o with
          | None => (Raise AssertionError, (o, w2))
          | Some _ => (Ok tt, (set_tarstream (Some None) o, w2))
          end
      end
  end.
Proof.
  unfold finish. unfold_m. destruct o as [? ? ? [[h|]|] ? ? ? ? [f|] ?]; simpl; try done;
  destruct (tar_close E w h); done.
Qed.

Lemma finish_frame st :
  let o := fst st in let o' := fst (snd (finish E st)) in
  total o' = total o ∧ count o' = count o ∧ size o' = size o ∧
  shard o' = shard o ∧ maxcount o' = maxcount o ∧ maxsize o' = maxsize o ∧
  pattern o' = pattern o ∧ kw o' = kw o ∧ fname o' = fname o.
Proof.
  destruct st as [o w]. rewrite finish_spec. simpl.
  repeat case_match; simpl; done.
Qed.

(** What [next_stream] does after its call of [finish]. *)
Lemma next_stream_spec o w :
  next_stream E (o, w) =
  match finish E (o, w) with
  | (Raise e, st) => (Raise e, st)
  | (Ok _, (o1, w1)) =>
      let c := counter w1 in
      let o2 := set_shard (Some c) o1 in
      let w2 := set_counter (Ctypes.store (counter_cell E) (c + 1)) w1 in
      match PyFormat.format (pattern o1) c with
      | PyFormat.Formatted f =>
          let o3 := set_fname (Some f) o2 in
          match os_open E w2 f with
          | Some e => (Raise e, (o3, w2))
          | None =>
              let w3 := add_log (Opened_shard f) (add_opened f w2) in
              match tar_new E w3 f (kw o1) with
              | Some e => (Raise e, (o3, w3))
              | None =>
                  (Ok tt,
                   (set_size (Some 0) (set_count (Some 0)
                      (set_tarstream (Some (Some (length (streams w3)))) o3)),
                    add_stream (MkStream f (kw o1) [] 0) w3))
              end
          end
      | bad => (Raise (FormatError bad), (o2, w2))
      end
  end.
Proof.
  unfold next_stream, claim. unfold bind at 1.
  destruct (finish E (o, w)) as [[[]|e] [o1 w1]]; [|done].
  unfold_m. simpl.
  destruct (PyFormat.format (pattern o1) (counter w1)); simpl; try done.
  destruct (os_open E _ s); simpl; try done.
  destruct (tar_new E _ s (kw o1)); simpl; done.
Qed.

(** The rotation test reads attributes and changes nothing. *)
Lemma must_rotate_spec o w :
  must_rotate (o, w) =
  (match tarstream o with
   | None => Raise (AttributeError "tarstream")
   | Some None => Ok true
   | Some (Some _) =>
       match count o with
       | None => Raise (AttributeError "count")
       | Some c =>
           if c >=? maxcount o then Ok true
           else match size o with
                | None => Raise (AttributeError "size")
                | Some s => Ok (int_ge_float s (maxsize o))
                end
       end
   end, (o, w)).
Proof.
  unfold must_rotate. unfold_m. simpl.
  destruct (tarstream o) as [[h|]|]; simpl; try done.
  destruct (count o) as [c|]; simpl; try done.
  destruct (c >=? maxcount o); simpl; try done.
  destruct (size o); simpl; done.
Qed.

(** What [write] does after the rotation test and the rotation, if any. *)
Lemma write_spec obj o w :
  write E obj (o, w) =
  match must_rotate (o, w) with
  | (Raise e, st) => (Raise e, st)
  | (Ok b, _) =>
      match (if b then next_stream E (o, w) else (Ok tt, (o, w))) with
      | (Raise e, st) => (Raise e, st)
      | (Ok _, (o1, w1)) =>
          match tarstream o1 with
          | None => (Raise (AttributeError "tarstream"), (o1, w1))
          | Some None => (Raise (AttributeError "write"), (o1, w1))
          | Some (Some h) =>
              match tar_write E w1 h obj with
              | Raise e => (Raise e, (o1, w1))
              | Ok n =>
                  let w2 := alter_stream (note_record obj) h w1 in
                  match count o1 with
                  | None => (Raise (AttributeError "count"), (o1, w2))
                  | Some c =>
                      let o2 := set_total (total o1 + 1)
                                  (set_count (Some (c + 1)) o1) in
                      match size o1 with
                      | None => (Raise (AttributeError "size"), (o2, w2))
                      | Some s => (Ok tt, (set_size (Some (s + n)) o2, w2))
                      end
                  end
              end
          end
      end
  end.
Proof.
  assert (Htail : ∀ o1 w1,
    (let* sz :=
       (let* t := getattr "tarstream" tarstream in
        match t with
        | None => raise (AttributeError "write")
        | Some h =>
            let* w := world in
            let* n := lift (tar_write E w h obj) in
            effect (alter_stream (note_record obj) h) ;; ret n
        end) in
     (let* c := getattr "count" count in assign (set_count (Some (c + 1)))) ;;
     (let* o := self in assign (set_total (total o + 1))) ;;
     (let* s := getattr "size" size in assign (set_size (Some (s + sz)))))
      (o1, w1) =
    match tarstream o1 with
    | None => (Raise (AttributeError "tarstream"), (o1, w1))
    | Some None => (Raise (AttributeError "write"), (o1, w1))
    | Some (Some h) =>
        match tar_write E w1 h obj with
        | Raise e => (Raise e, (o1, w1))
        | Ok n =>
            let w2 := alter_stream (note_record obj) h w1 in
            match count o1 with
            | None => (Raise (AttributeError "count"), (o1, w2))
            | Some c =>
                let o2 := set_total (total o1 + 1)
                            (set_count (Some (c + 1)) o1) in
                match size o1 with
                | None => (Raise (AttributeError "size"), (o2, w2))
                | Some s => (Ok tt, (set_size (Some (s + n)) o2, w2))
                end
            end
        end
    end).
  { intros o1 w1. unfold_m. simpl.
    destruct (tarstream o1) as [[h|]|]; simpl; try done.
    destruct (tar_write E w1 h obj); simpl; try done.
    destruct (count o1); simpl; try done.
    destruct (size o1); simpl; done. }
  unfold write. unfold bind at 1. unfold bind at 1.
  pose proof (must_rotate_spec o w) as Hm.
  destruct (must_rotate (o, w)) as [[b|e] st0]; [|done].
  injection Hm as _ ->.
  destruct b.
  - destruct (next_stream E (o, w)) as [[[]|e] [o1 w1]]; [|done].
    apply Htail.
  - unfold ret at 1. apply Htail.
Qed.

(** What [close] does after its call of [finish]. *)
Lemma close_spec o w :
  close E (o, w) =
  match finish E (o, w) with
  | (Raise e, st) => (Raise e, st)
  | (Ok _, (o1, w1)) =>
      match tarstream o1 with
      | None => (Raise (AttributeError "tarstream"), (o1, w1))
      | Some _ =>
          let o2 := set_tarstream None o1 in
          match shard o1 with
          | None => (Raise (AttributeError "shard"), (o2, w1))
          | Some _ =>
              let o3 := set_shard None o2 in
              match count o1 with
              | None => (Raise (AttributeError "count"), (o3, w1))
              | Some _ =>
                  let o4 := set_count None o3 in
                  match size o1 with
                  | None => (Raise (AttributeError "size"), (o4, w1))
                  | Some _ => (Ok tt, (set_size None o4, w1))
                  end
              end
          end
      end
  end.
Proof.
  unfold close. unfold bind at 1.
  destruct (finish E (o, w)) as [[[]|e] [o1 w1]]; [|done].
  unfold_m. simpl.
  destruct (tarstream o1); simpl; try done.
  destruct (shard o1); simpl; try done.
  destruct (count o1); simpl; try done.
  destruct (size o1); simpl; done.
Qed.

Lemma next_stream_frame st :
  let o := fst st in let o' := fst (snd (next_stream E st)) in
  total o' = total o ∧ maxcount o' = maxcount o ∧ maxsize o' = maxsize o ∧
  pattern o' = pattern o ∧ kw o' = kw o.
Proof.
  destruct st as [o w]. rewrite next_stream_spec.
  pose proof (finish_frame (o, w)) as Hf. simpl in Hf.
  destruct (finish E (o, w)) as [[[]|e] [o1 w1]]; simpl in *; [|(intuition congruence)].
  repeat case_match; simpl; (intuition congruence).
Qed.

Lemma finish_streams_length st :
  length (streams (snd (snd (finish E st)))) = length (streams (snd st)).
Proof.
  destruct st as [o w]. rewrite finish_spec.
  repeat case_match; simpl; rewrite ?length_alter; done.
Qed.

(** A rotation that returns leaves a fresh open shard. *)
Lemma next_stream_ok st st' :
  next_stream E st = (Ok tt, st') →
  ∃ h, tarstream (fst st') = Some (Some h) ∧
       count (fst st') = Some 0 ∧ size (fst st') = Some 0 ∧
       h = length (streams (snd st)) ∧
       length (streams (snd st')) = S h.
Proof.
  destruct st as [o w]. rewrite next_stream_spec.
  pose proof (finish_streams_length (o, w)) as Hlen.
  destruct (finish E (o, w)) as [[[]|e] [o1 w1]]; [|done].
  cbv zeta. simpl in Hlen.
  destruct (PyFormat.format _ _) as [f| | | | | |]; try done.
  destruct (os_open E _ f); try done.
  destruct (tar_new E _ f _); try done.
  intros [= <-]. simpl. exists (length (streams w1)).
  rewrite length_app. simpl. split_and!; try done; lia.
Qed.

(** The rotation test says no only on an open shard with both counters. *)
Lemma must_rotate_false o w st :
  must_rotate (o, w) = (Ok false, st) →
  ∃ h c s, tarstream o = Some (Some h) ∧ count o = Some c ∧ size o = Some s ∧
           c < maxcount o ∧ int_ge_float s (maxsize o) = false.
Proof.
  rewrite must_rotate_spec. intros H.
  destruct (tarstream o) as [[h|]|]; simplify_eq.
  destruct (count o) as [c|]; simplify_eq.
  destruct (c >=? maxcount o) eqn:Hge; simplify_eq.
  destruct (size o) as [s|]; simplify_eq.
  exists h, c, s. split_and!; try done. lia.
Qed.

Lemma must_rotate_state o w r st :
  must_rotate (o, w) = (r, st) → st = (o, w).
Proof. rewrite must_rotate_spec. congruence. Qed.

(** A write that raises is not counted, whatever raised. *)
Lemma failed_write_keeps_total obj st e st' :
  write E obj st = (Raise e, st') → total (fst st') = total (fst st).
Proof.
  destruct st as [o w]. rewrite write_spec.
  pose proof (next_stream_frame (o, w)) as Hn.
  pose proof (next_stream_ok (o, w)) as Hok.
  simpl in Hn. cbv zeta.
  destruct (must_rotate (o, w)) as [[b|e0] st0] eqn:Hm.
  2:{ intros [= <- <-]. by rewrite (must_rotate_state _ _ _ _ Hm). }
  destruct b.
  - destruct (next_stream E (o, w)) as [[[]|e1] [o1 w1]]; simpl in *.
    2:{ intros [= <- <-]. simpl. tauto. }
    destruct (Hok _ eq_refl) as (h1 & Ht1 & Hc1 & Hs1 & _). simpl in *.
    rewrite Ht1, Hc1, Hs1.
    destruct (tar_write E w1 h1 obj); intros [= <- <-]. simpl. tauto.
  - destruct (must_rotate_false _ _ _ Hm) as (h & c & s & Ht & Hc & Hs & _).
    rewrite Ht, Hc, Hs.
    destruct (tar_write E w h obj); intros [= <- <-]. done.
Qed.

(** A write that returns is counted once. *)
Lemma write_ok_total obj st st' :
  write E obj st = (Ok tt, st') → total (fst st') = total (fst st) + 1.
Proof.
  destruct st as [o w]. rewrite write_spec.
  pose proof (next_stream_frame (o, w)) as Hn. simpl in Hn. cbv zeta.
  destruct (must_rotate (o, w)) as [[b|e0] st0] eqn:Hm; [|done].
  destruct b.
  - destruct (next_stream E (o, w)) as [[[]|e1] [o1 w1]]; simpl in *; [|done].
    destruct Hn as [<- _].
    repeat (case_match; try done). intros [= <-]. done.
  - repeat (case_match; try done). intros [= <-]. done.
Qed.

Lemma write_all_total objs : ∀ st st',
  write_all E objs st = (Ok tt, st') →
  total (fst st') = total (fst st) + Z.of_nat (length objs).
Proof.
  induction objs as [|obj objs IH]; intros st st' H; simpl in *.
  - unfold ret in H. simplify_eq. lia.
  - unfold bind in H.
    destruct (write E obj st) as [[[]|e] st1] eqn:Hw; [|done].
    rewrite (IH _ _ H), (write_ok_total _ _ _ Hw). lia.
Qed.

(** A write on an open shard below both limits goes to that shard,
    whatever size the archive writer then reports. *)
Lemma write_same_shard obj o w h c s n :
  tarstream o = Some (Some h) → count o = Some c → size o = Some s →
  c < maxcount o → int_ge_float s (maxsize o) = false →
  tar_write E w h obj = Ok n →
  write E obj (o, w) =
  (Ok tt, (set_size (Some (s + n))
             (set_total (total o + 1) (set_count (Some (c + 1)) o)),
           alter_stream (note_record obj) h w)).
Proof.
  intros Ht Hc Hs Hlt Hge Hw. rewrite write_spec, must_rotate_spec.
  rewrite Ht, Hc, Hs, Hge.
  destruct (c >=? maxcount o) eqn:Hcmp; [lia|].
  rewrite Ht, Hw, Hc, Hs. done.
Qed.

(** C2.  A writer with maxcount 1000 and maxsize 10 on a fresh shard, two
    writes for which the archive writer reports 6 bytes each: before the
    second write the size is 6, so the test says no rotation; that write
    goes to the same shard (same index, same archive writer, counter not
    touched) and the size becomes 12.  Only the test at the start of the
    next write says rotate. *)
Theorem soft_size_cap (o : Obj KW) (w : World KW sample) (h : nat)
    (a b : sample) :
  let w1 := alter_stream (note_record a) h w in
  let w2 := alter_stream (note_record b) h w1 in
  tarstream o = Some (Some h) → count o = Some 0 → size o = Some 0 →
  maxcount o = 1000 → maxsize o = Finite (inject_Z 10) →
  tar_write E w h a = Ok 6 → tar_write E w1 h b = Ok 6 →
  ∃ o1 o2,
    write E a (o, w) = (Ok tt, (o1, w1)) ∧
    size o1 = Some 6 ∧
    must_rotate (o1, w1) = (Ok false, (o1, w1)) ∧
    write E b (o1, w1) = (Ok tt, (o2, w2)) ∧
    size o2 = Some 12 ∧ count o2 = Some 2 ∧
    shard o2 = shard o ∧ tarstream o2 = Some (Some h) ∧
    counter w2 = counter w ∧
    must_rotate (o2, w2) = (Ok true, (o2, w2)).
Proof.
  intros w1 w2 Ht Hc Hs Hmc Hms Ha Hb.
  eexists _, _. split.
  { apply (write_same_shard a o w h 0 0 6); try done; [lia|by rewrite Hms]. }
  split; [done|]. split.
  { rewrite must_rotate_spec. simpl. rewrite Ht, Hmc, Hms. done. }
  split.
  { apply (write_same_shard b _ w1 h 1 6 6); simpl; try done;
      [lia | by rewrite Hms]. }
  split_and!; try done.
  rewrite must_rotate_spec. simpl. rewrite Ht, Hmc, Hms. done.
Qed.

Lemma alter_at_end {B} (f : B → B) (l : list B) (x : B) :
  alter f (length l) (l ++ [x]) = l ++ [f x].
Proof.
  replace (length l) with (length l + 0)%nat by lia.
  by rewrite alter_app_r.
Qed.

(** C3.  maxcount 3, seven writes, the archive writer reports 1 byte for
    each, nothing fails and the size limit is not reached by 2 bytes.  The
    session makes three archive writers, which hold the first three, the
    next three and the last record; the second and the third index are
    taken at the start of the fourth and of the seventh write.  The three
    indices are the counter's value c and what the counter's cell holds
    after each increment (c+1 and c+2 while these fit the cell). *)
Theorem count_rotation (pat : string) (ms : pyfloat) (k : KW)
    (w : World KW sample) (f0 f1 f2 : string)
    (x1 x2 x3 x4 x5 x6 x7 : sample) :
  let c := counter w in
  let c1 := Ctypes.store (counter_cell E) (c + 1) in
  let c2 := Ctypes.store (counter_cell E) (c1 + 1) in
  PyFormat.format pat c = PyFormat.Formatted f0 →
  PyFormat.format pat c1 = PyFormat.Formatted f1 →
  PyFormat.format pat c2 = PyFormat.Formatted f2 →
  (∀ w f, os_open E w f = None) →
  (∀ w f k, tar_new E w f k = None) →
  (∀ w h, tar_close E w h = None) →
  (∀ w h x, x ∈ [x1; x2; x3; x4; x5; x6; x7] → tar_write E w h x = Ok 1) →
  (∀ s, 0 ≤ s ≤ 2 → int_ge_float s ms = false) →
  ∃ st0 o' w',
    init E pat 3 ms k w = (Ok tt, st0) ∧
    write_all E [x1; x2; x3; x4; x5; x6; x7] st0 = (Ok tt, (o', w')) ∧
    streams w' = streams w ++
      [MkStream f0 k [x1; x2; x3] 1;
       MkStream f1 k [x4; x5; x6] 1;
       MkStream f2 k [x7] 0] ∧
    opened w' = opened w ++ [f0; f1; f2] ∧
    counter w' = Ctypes.store (counter_cell E) (c2 + 1) ∧
    shard o' = Some c2 ∧
    count o' = Some 1 ∧ total o' = 7 ∧
    counter (snd (snd (write_all E [x1; x2; x3] st0))) = c1 ∧
    counter (snd (snd (write_all E [x1; x2; x3; x4] st0))) = c2 ∧
    counter (snd (snd (write_all E [x1; x2; x3; x4; x5; x6] st0))) = c2.
Proof.
  intros c c1 c2 Hf0 Hf1 Hf2 Hopen Hnew Hclose Hwrite Hsize.
  pose proof (Hsize 0 ltac:(lia)) as Hs0.
  pose proof (Hsize 1 ltac:(lia)) as Hs1.
  pose proof (Hsize 2 ltac:(lia)) as Hs2.
  assert (Hw : ∀ x, x ∈ [x1; x2; x3; x4; x5; x6; x7] →
                ∀ w h, tar_write E w h x = Ok 1) by auto.
  pose proof (Hw x1 ltac:(repeat constructor)) as Hw1.
  pose proof (Hw x2 ltac:(repeat constructor)) as Hw2.
  pose proof (Hw x3 ltac:(repeat constructor)) as Hw3.
  pose proof (Hw x4 ltac:(repeat constructor)) as Hw4.
  pose proof (Hw x5 ltac:(repeat constructor)) as Hw5.
  pose proof (Hw x6 ltac:(repeat constructor)) as Hw6.
  pose proof (Hw x7 ltac:(repeat constructor)) as Hw7.
  assert (Hinit : init E pat 3 ms k w =
    (Ok tt, (MkObj k 3 ms (Some (Some (length (streams w)))) pat 0
               (Some 0) (Some 0) (Some f0) (Some c),
             MkWorld c1 (opened w ++ [f0])
               (streams w ++ [MkStream f0 k [] 0])
               (log w ++ [Opened_shard f0])))).
  { unfold init. rewrite next_stream_spec, finish_spec. simpl.
    fold c. rewrite Hf0, Hopen, Hnew. done. }
  eexists _, _, _. split; [exact Hinit|].
  assert (Hstay : ∀ x h cnt sz tot f sh wd,
    cnt < 3 → int_ge_float sz ms = false → (∀ w h, tar_write E w h x = Ok 1) →
    write E x (MkObj k 3 ms (Some (Some h)) pat tot (Some cnt) (Some sz) f sh, wd)
    = (Ok tt, (MkObj k 3 ms (Some (Some h)) pat (tot + 1) (Some (cnt + 1))
                 (Some (sz + 1)) f sh,
               alter_stream (note_record x) h wd))).
  { intros. rewrite (write_same_shard x _ wd h cnt sz 1); done. }
  assert (Hturn : ∀ x h sz tot f f' sh wd,
    PyFormat.format pat (counter wd) = PyFormat.Formatted f' →
    (∀ w h, tar_write E w h x = Ok 1) →
    write E x (MkObj k 3 ms (Some (Some h)) pat tot (Some 3) (Some sz)
                 (Some f) sh, wd)
    = (Ok tt, (MkObj k 3 ms
                 (Some (Some (length (alter note_close h (streams wd)))))
                 pat (tot + 1)
                 (Some 1) (Some 1) (Some f') (Some (counter wd)),
               MkWorld (Ctypes.store (counter_cell E) (counter wd + 1))
                 (opened wd ++ [f'])
                 (alter note_close h (streams wd) ++ [MkStream f' k [x] 0])
                 ((log wd ++ [Closed_shard (Some f)])
                    ++ [Opened_shard f'])))).
  { intros x h sz tot f f' sh wd Hf' Hx.
    rewrite write_spec, must_rotate_spec, next_stream_spec, finish_spec.
    simpl. rewrite Hclose. simpl. rewrite Hf', Hopen, Hnew. simpl.
    rewrite Hx. simpl. unfold alter_stream, add_stream. simpl.
    rewrite alter_at_end. done. }
  unfold write_all, bind. cbn [fst snd].
  rewrite !Hstay by (done || lia). simpl.
  rewrite !(Hturn x4 _ _ _ _ f1) by done. simpl.
  rewrite !Hstay by (done || lia). simpl.
  rewrite !(Hturn x7 _ _ _ _ f2) by done. simpl.
  rewrite !alter_at_end. simpl.
  unfold ret. split; [reflexivity|]. simpl.
  rewrite <- !app_assoc. simpl.
  unfold note_close, note_record. simpl. split_and!; try done; lia.
Qed.

(** C4.  After W calls of [write] on a new instance, none of which
    failed, [total] is W, whatever rotations happened on the way. *)
Theorem lifetime_total (pat : string) (mc : Z) (ms : pyfloat) (k : KW)
    (w0 : World KW sample) (objs : list sample) (st0 st : St KW sample) :
  init E pat mc ms k w0 = (Ok tt, st0) →
  write_all E objs st0 = (Ok tt, st) →
  total (fst st) = Z.of_nat (length objs).
Proof.
  intros Hi Hw. rewrite (write_all_total _ _ _ Hw).
  unfold init in Hi.
  pose proof (next_stream_frame (fresh pat mc ms k, w0)) as Hn.
  rewrite Hi in Hn. simpl in Hn. destruct Hn as [-> _]. done.
Qed.

(** C5, as the code has it.  When the archive writer's [write] raises,
    [write] raises the same exception with the instance and the world as
    they stood just before that call: nothing is retried and no record is
    noted.  [total] is what it was before [write].  [count] and [size] are
    what they were if this [write] did not rotate; if it rotated first they
    are those of the new shard, both 0. *)
Theorem write_failure (obj : sample) (o : Obj KW) (w : World KW sample)
    (b : bool) (o1 : Obj KW) (w1 : World KW sample) (h : nat) (e : exn) :
  must_rotate (o, w) = (Ok b, (o, w)) →
  (if b then next_stream E (o, w) else (Ok tt, (o, w))) = (Ok tt, (o1, w1)) →
  tarstream o1 = Some (Some h) →
  tar_write E w1 h obj = Raise e →
  write E obj (o, w) = (Raise e, (o1, w1)) ∧
  total o1 = total o ∧
  (if b then count o1 = Some 0 ∧ size o1 = Some 0
   else count o1 = count o ∧ size o1 = size o).
Proof.
  intros Hm Hrot Ht Hw.
  assert (Hres : write E obj (o, w) = (Raise e, (o1, w1))).
  { rewrite write_spec, Hm, Hrot, Ht, Hw. done. }
  split; [done|]. split.
  - apply (failed_write_keeps_total _ _ _ _ Hres).
  - destruct b.
    + destruct (next_stream_ok _ _ Hrot) as (? & _ & ? & ? & _). done.
    + by simplify_eq.
Qed.

(** C6.  With no shard open ([tarstream] is [None]), [finish] returns
    and changes nothing.  If [finish] returns, a second [finish] right
    after it returns too and changes nothing; with a shard open before the
    first call, the two calls together have called the archive writer's
    [close] once, on that shard's writer and on no other. *)
Theorem finish_idempotent (st : St KW sample) :
  (tarstream (fst st) = Some None → finish E st = (Ok tt, st)) ∧
  ∀ st1, finish E st = (Ok tt, st1) →
    finish E st1 = (Ok tt, st1) ∧
    (finish E ;; finish E) st = (Ok tt, st1) ∧
    tarstream (fst st1) = Some None ∧
    match tarstream (fst st) with
    | Some (Some h) =>
        streams (snd st1) = alter note_close h (streams (snd st)) ∧
        closes_of h (snd st1) = S <$> closes_of h (snd st) ∧
        ∀ h', h' ≠ h → closes_of h' (snd st1) = closes_of h' (snd st)
    | _ => st1 = st
    end.
Proof.
  destruct st as [o w]. split.
  { simpl. intros Ht. rewrite finish_spec. by rewrite Ht. }
  intros st1 H.
  assert (Ht1 : tarstream (fst st1) = Some None).
  { rewrite finish_spec in H. cbv zeta in H. repeat case_match; by simplify_eq. }
  assert (H2 : finish E st1 = (Ok tt, st1)).
  { destruct st1 as [o1 w1]. rewrite finish_spec. simpl in Ht1. by rewrite Ht1. }
  split; [done|]. split; [unfold bind; by rewrite H|]. split; [done|].
  rewrite finish_spec in H. cbv zeta in H. simpl.
  destruct (tarstream o) as [[h|]|]; simplify_eq; [|done].
  destruct (tar_close E w h); simplify_eq.
  destruct (fname o); simplify_eq. simpl. unfold closes_of. simpl.
  split; [done|]. split.
  - rewrite list_lookup_alter. case_decide; [|done]. by destruct (streams w !! h).
  - intros h' Hne. by rewrite list_lookup_alter_ne.
Qed.

(** C7.  A with block around an instance, with any body.  Whether the
    body returned or raised, [__exit__] runs [close] once on the state the
    body left: the archive writer that is open at that moment gets one
    [close] call and no other archive writer gets any, no index is taken,
    and if that [close] call returns the block ends with the body's own
    outcome (its exception, if it raised) and [tarstream] deleted. *)
Theorem scoped_cleanup {A : Type} (body : M KW sample A)
    (st st1 : St KW sample) (rb : Res A) (h : nat) :
  body st = (rb, st1) →
  tarstream (fst st1) = Some (Some h) →
  ∃ rx st2,
    exit E st1 = (rx, st2) ∧
    with_block E body st
      = (match rx with Ok _ => rb | Raise e => Raise e end, st2) ∧
    closes_of h (snd st2) = S <$> closes_of h (snd st1) ∧
    (∀ h', h' ≠ h → closes_of h' (snd st2) = closes_of h' (snd st1)) ∧
    counter (snd st2) = counter (snd st1) ∧
    (tar_close E (snd st1) h = None → is_Some (fname (fst st1)) →
     is_Some (shard (fst st1)) → is_Some (count (fst st1)) →
     is_Some (size (fst st1)) →
     rx = Ok tt ∧ tarstream (fst st2) = None).
Proof.
  intros Hb Ht. destruct st1 as [o1 w1]. simpl in *.
  destruct (exit E (o1, w1)) as [rx st2] eqn:Hx.
  exists rx, st2. split; [done|]. split.
  { unfold with_block, enter, ret. rewrite Hb, Hx. by destruct rx as [[]|]. }
  unfold exit in Hx. rewrite close_spec, finish_spec, Ht in Hx. cbv zeta in Hx.
  assert (Hlook : ∀ l : list (Stream KW sample),
            s_closes <$> alter note_close h l !! h = S <$> (s_closes <$> l !! h)).
  { intros l. rewrite list_lookup_alter. case_decide; [|done]. by destruct (l !! h). }
  assert (Hother : ∀ (l : list (Stream KW sample)) h', h' ≠ h →
            s_closes <$> alter note_close h l !! h' = s_closes <$> l !! h').
  { intros l h' Hne. by rewrite list_lookup_alter_ne. }
  destruct (tar_close E w1 h) as [e|]; simplify_eq; simpl.
  { unfold closes_of; simpl. split_and!; auto; done. }
  destruct (fname o1) as [f|]; simplify_eq; simpl.
  2:{ unfold closes_of; simpl. split_and!; auto. by intros _ [? ?]. }
  simpl in Hx.
  destruct (shard o1), (count o1), (size o1); simplify_eq; simpl;
    unfold closes_of; simpl; split_and!; auto;
    try (intros _ _ [? ?] [? ?] [? ?]; done).
Qed.

(** C8, as the code has it.  Where the pattern formats with the counter's value
    and the file and the archive writer can be made, the constructor
    returns with one rotation done: the index is the value the counter
    had, and the successor of that value has been stored in the counter's
    cell, which leaves the counter one higher if it stood below the
    greatest integer of the cell and at the least integer of the cell if
    it stood at the greatest; the file named by the formatted pattern has
    been opened, a new archive writer on it with the instance's keyword
    arguments is the open one, and the counts of the shard and of the
    instance are 0. *)
Theorem eager_first_shard (pat : string) (mc : Z) (ms : pyfloat) (k : KW)
    (w : World KW sample) (f : string) :
  let cell := counter_cell E in
  let w1 := set_counter (Ctypes.store cell (counter w + 1)) w in
  let w2 := add_log (Opened_shard f) (add_opened f w1) in
  PyFormat.format pat (counter w) = PyFormat.Formatted f →
  os_open E w1 f = None →
  tar_new E w2 f k = None →
  ∃ o w',
    init E pat mc ms k w = (Ok tt, (o, w')) ∧
    shard o = Some (counter w) ∧
    counter w' = Ctypes.store cell (counter w + 1) ∧
    (Ctypes.lo cell ≤ counter w < Ctypes.hi cell →
     counter w' = counter w + 1) ∧
    (counter w = Ctypes.hi cell → counter w' = Ctypes.lo cell) ∧
    fname o = Some f ∧ opened w' = opened w ++ [f] ∧
    streams w' = streams w ++ [MkStream f k [] 0] ∧
    tarstream o = Some (Some (length (streams w))) ∧
    count o = Some 0 ∧ size o = Some 0 ∧ total o = 0 ∧
    log w' = log w ++ [Opened_shard f] ∧
    maxcount o = mc ∧ maxsize o = ms ∧ pattern o = pat ∧ kw o = k.
Proof.
  intros cell w1 w2 Hf Ho Hn. unfold init.
  rewrite next_stream_spec, finish_spec. simpl.
  rewrite Hf. fold cell. fold w1. rewrite Ho. fold w2. rewrite Hn.
  eexists _, _. split; [reflexivity|]. simpl. split_and!; try done.
  - intros Hfit. apply CtypesFacts.store_id. lia.
  - intros ->. apply CtypesFacts.store_wraps.
Qed.

Lemma scan_no_site (n : Z) (s : string) :
  (∀ acc, PyFormat.no_site s = true →
     PyFormat.scan PyFormat.Text n true acc s = PyFormat.TypeError_not_all_converted) ∧
  (∀ acc c, PyFormat.no_site (String c s) = true →
     PyFormat.scan PyFormat.Text n true acc (String c s)
       = PyFormat.TypeError_not_all_converted).
Proof.
  induction s as [|c' s' [IH1 IH2]].
  - split; [done|]. intros acc c. simpl.
    destruct (Ascii.eqb c "%"); done.
  - assert (H1 : ∀ acc, PyFormat.no_site (String c' s') = true →
       PyFormat.scan PyFormat.Text n true acc (String c' s')
         = PyFormat.TypeError_not_all_converted) by (intros; by apply IH2).
    split; [done|]. intros acc c.
    cbn [PyFormat.no_site PyFormat.scan PyFormat.feed].
    destruct (Ascii.eqb c "%") eqn:Hc.
    + intros [Hc' Hs']%andb_true_iff.
      cbn [PyFormat.scan PyFormat.feed]. rewrite Hc'. by apply IH1.
    + intros Hs. by apply H1.
Qed.

Lemma format_no_site (pat : string) (n : Z) :
  PyFormat.no_site pat = true →
  PyFormat.format pat n = PyFormat.TypeError_not_all_converted.
Proof. intros H. by apply scan_no_site. Qed.

(** C9.  For a pattern without a substitution site the constructor raises
    the error of [pattern % shard], and it raises it from inside the first
    rotation: the index has been taken from the counter and stored in
    [shard] by then, no file has been opened, and the attributes are
    otherwise those the constructor assigned; the assignments of
    [__init__] before the rotation never look at the pattern. *)
Theorem malformed_pattern (pat : string) (mc : Z) (ms : pyfloat) (k : KW)
    (w : World KW sample) :
  PyFormat.no_site pat = true →
  init E pat mc ms k w =
    (Raise (FormatError PyFormat.TypeError_not_all_converted),
     (set_shard (Some (counter w)) (fresh pat mc ms k),
      set_counter (Ctypes.store (counter_cell E) (counter w + 1)) w)) ∧
  init E pat mc ms k w = next_stream E (fresh pat mc ms k, w).
Proof.
  intros H. split; [|done]. unfold init.
  rewrite next_stream_spec, finish_spec. simpl.
  by rewrite (format_no_site _ _ H).
Qed.

(** C10.  Once [close] has returned, [tarstream], [shard], [count] and
    [size] do not exist, and [write], [finish], a second [close],
    [__exit__], and with it every with block whose body leaves the
    instance closed, raise AttributeError on [tarstream] and leave
    everything as it was. *)
Theorem use_after_close (st st' : St KW sample) :
  close E st = (Ok tt, st') →
  tarstream (fst st') = None ∧ shard (fst st') = None ∧
  count (fst st') = None ∧ size (fst st') = None ∧
  (∀ obj, write E obj st' = (Raise (AttributeError "tarstream"), st')) ∧
  finish E st' = (Raise (AttributeError "tarstream"), st') ∧
  close E st' = (Raise (AttributeError "tarstream"), st') ∧
  (close E ;; close E) st = (Raise (AttributeError "tarstream"), st') ∧
  exit E st' = (Raise (AttributeError "tarstream"), st') ∧
  (∀ (A : Type) (body : M KW sample A) st0 r,
     body st0 = (r, st') →
     with_block E body st0 = (Raise (AttributeError "tarstream"), st')).
Proof.
  destruct st as [o w]. intros H.
  assert (Hattrs : tarstream (fst st') = None ∧ shard (fst st') = None ∧
                   count (fst st') = None ∧ size (fst st') = None).
  { rewrite close_spec in H. cbv zeta in H.
    destruct (finish E (o, w)) as [[[]|e] [o1 w1]]; [|done].
    repeat case_match; by simplify_eq. }
  destruct st' as [o' w']. simpl in Hattrs. destruct Hattrs as (Ht & Hsh & Hc & Hs).
  assert (Hfin : finish E (o', w') = (Raise (AttributeError "tarstream"), (o', w')))
    by (rewrite finish_spec; by rewrite Ht).
  assert (Hcl : close E (o', w') = (Raise (AttributeError "tarstream"), (o', w')))
    by (rewrite close_spec; by rewrite Hfin).
  split_and!; try done.
  - intros obj. rewrite write_spec, must_rotate_spec. by rewrite Ht.
  - unfold bind. by rewrite H.
  - intros A body st0 r Hb. unfold with_block, enter, exit, ret. by rewrite Hb, Hcl.
Qed.


(** *** Every shard of a session is closed once

    From here on the archive writer's [close] never raises. *)
Section Sessions.

Hypothesis close_returns : ∀ w h, tar_close E w h = None.

Lemma finish_tidy n0 st :
  tidy n0 st →
  ∃ o w, finish E st = (Ok tt, (o, w)) ∧ tarstream o = Some None ∧
         tidy n0 (o, w) ∧ shard o = shard (fst st) ∧
         count o = count (fst st) ∧ size o = size (fst st) ∧
         length (streams w) = length (streams (snd st)).
Proof.
  destruct st as [o w]. unfold tidy. rewrite finish_spec. cbv zeta. simpl.
  destruct (tarstream o) as [[h0|]|] eqn:Ht; [| |done].
  - intros (Hn & Hlt & [f Hf] & Hcl). rewrite close_returns, Hf.
    eexists _, _. split; [reflexivity|]. simpl. split_and!; try done.
    + intros h s Hge. rewrite list_lookup_alter. case_decide as Hd.
      * subst h0. destruct (streams w !! h) as [s0|] eqn:Hl; [|done].
        simpl. intros [= <-]. simpl. specialize (Hcl h s0 Hge Hl).
        rewrite decide_True in Hcl by done. by rewrite Hcl.
      * intros Hl. specialize (Hcl h s Hge Hl). by rewrite decide_False in Hcl.
    + by rewrite length_alter.
  - intros Hcl. eexists _, _. split; [reflexivity|]. rewrite Ht. done.
Qed.

Lemma next_stream_tidy n0 st :
  tidy n0 st → (n0 ≤ length (streams (snd st)))%nat →
  let st' := snd (next_stream E st) in
  tidy n0 st' ∧ (n0 ≤ length (streams (snd st')))%nat ∧
  is_Some (shard (fst st')) ∧
  (is_Some (count (fst st)) → is_Some (count (fst st'))) ∧
  (is_Some (size (fst st)) → is_Some (size (fst st'))).
Proof.
  intros Ht Hn0. destruct st as [o w]. rewrite next_stream_spec.
  destruct (finish_tidy _ _ Ht) as (o1 & w1 & -> & Ht1 & Htidy & Hsh & Hc & Hs & Hlen).
  cbv zeta. simpl in *. unfold tidy in Htidy. simpl in Htidy. rewrite Ht1 in Htidy.
  assert (Hfail : ∀ o2 w2, tarstream o2 = Some None → streams w2 = streams w1 →
            count o2 = count o1 → size o2 = size o1 → is_Some (shard o2) →
            tidy n0 (o2, w2) ∧ (n0 ≤ length (streams w2))%nat ∧
            is_Some (shard o2) ∧
            (is_Some (count o) → is_Some (count o2)) ∧
            (is_Some (size o) → is_Some (size o2))).
  { intros o2 w2 Ht2 Hw2 Hc2 Hs2 Hsh2. unfold tidy. simpl.
    rewrite Ht2, Hw2, Hc2, Hs2, Hc, Hs, Hlen. split_and!; auto. }
  destruct (PyFormat.format _ _) as [f| | | | | |]; cbn [fst snd].
  2-7: apply Hfail; simpl; eauto.
  destruct (os_open E _ f); cbn [fst snd]; [apply Hfail; simpl; eauto|].
  destruct (tar_new E _ f _); cbn [fst snd]; [apply Hfail; simpl; eauto|].
  unfold tidy; simpl. rewrite length_app. simpl. split_and!; eauto; try lia.
  intros h s Hge Hl. case_decide as Hd.
  - subst h. rewrite lookup_app_r, Nat.sub_diag in Hl by done.
    simpl in Hl. by simplify_eq.
  - destruct (decide (h < length (streams w1))%nat) as [Hlt|Hnlt].
    + rewrite lookup_app_l in Hl by done. eauto.
    + rewrite lookup_ge_None_2 in Hl; [done|]. rewrite length_app. simpl. lia.
Qed.

Lemma next_stream_ready n0 st :
  tidy n0 st → (n0 ≤ length (streams (snd st)))%nat →
  is_Some (count (fst st)) → is_Some (size (fst st)) →
  ready n0 (snd (next_stream E st)).
Proof.
  intros Ht Hn Hc Hs.
  destruct (next_stream_tidy _ _ Ht Hn) as (? & ? & ? & ? & ?).
  unfold ready. split_and!; auto.
Qed.

Lemma tidy_note_record n0 (o o' : Obj KW) (w : World KW sample) obj h :
  tarstream o' = tarstream o → fname o' = fname o →
  tidy n0 (o, w) → tidy n0 (o', alter_stream (note_record obj) h w).
Proof.
  unfold tidy. simpl. intros -> ->.
  assert (Hlook : ∀ h' s, alter (note_record obj) h (streams w) !! h' = Some s →
            ∃ s0, streams w !! h' = Some s0 ∧ s_closes s = s_closes s0).
  { intros h' s. rewrite list_lookup_alter. case_decide.
    - subst. intros (s0 & Hl0 & ->)%fmap_Some. by exists s0.
    - intros Hl. by exists s. }
  destruct (tarstream o) as [[h0|]|]; [| |done].
  - intros (? & ? & ? & Hcl). rewrite length_alter. split_and!; try done.
    intros h' s Hge Hl. destruct (Hlook _ _ Hl) as (s0 & Hl0 & ->). eauto.
  - intros Hcl h' s Hge Hl. destruct (Hlook _ _ Hl) as (s0 & Hl0 & ->). eauto.
Qed.

(** [write] keeps the instance ready, whether it returns or raises. *)
Lemma write_ready obj n0 st : ready n0 st → ready n0 (snd (write E obj st)).
Proof.
  destruct st as [o w]. intros Hr. rewrite write_spec. cbv zeta.
  destruct (must_rotate (o, w)) as [[b|e] st0] eqn:Hm.
  2:{ by rewrite (must_rotate_state _ _ _ _ Hm). }
  assert (Hrot : ready n0
            (snd (if b then next_stream E (o, w) else (Ok tt, (o, w))))).
  { destruct b; [|done]. destruct Hr as (? & ? & ? & ? & ?).
    by apply next_stream_ready. }
  destruct (if b then _ else _) as [[[]|e] [o1 w1]]; [|done].
  destruct Hrot as (Ht & Hn & Hsh & [c Hc] & [s Hs]). simpl in Hn, Hsh, Hc, Hs.
  assert (Hready : ready n0 (o1, w1)) by (unfold ready; split_and!; eauto).
  destruct (tarstream o1) as [[h|]|] eqn:Ht1; try done.
  destruct (tar_write E w1 h obj) as [n|e]; [|done].
  rewrite Hc, Hs. simpl. unfold ready. simpl. rewrite length_alter.
  split_and!; eauto. by apply (tidy_note_record n0 o1).
Qed.

Lemma write_all_ready objs n0 : ∀ st,
  ready n0 st → ready n0 (snd (write_all E objs st)).
Proof.
  induction objs as [|obj objs IH]; intros st Hr; simpl; [done|].
  unfold bind. pose proof (write_ready obj _ _ Hr) as Hw.
  destruct (write E obj st) as [[[]|e] st1]; simpl in *; auto.
Qed.

(** On a ready instance [__exit__] returns and leaves every archive
    writer closed once. *)
Lemma exit_ready n0 st :
  ready n0 st →
  ∃ o w, exit E st = (Ok tt, (o, w)) ∧ tarstream o = None ∧
         ∀ h s, (n0 ≤ h)%nat → streams w !! h = Some s → s_closes s = 1%nat.
Proof.
  destruct st as [o w]. intros (Ht & Hn & [? Hsh] & [? Hc] & [? Hs]).
  simpl in *. unfold exit. rewrite close_spec.
  destruct (finish_tidy _ _ Ht) as (o1 & w1 & -> & Ht1 & Htidy & Hsh1 & Hc1 & Hs1 & _).
  simpl in *. rewrite Ht1, Hsh1, Hc1, Hs1, Hsh, Hc, Hs. cbv zeta.
  eexists _, _. split; [reflexivity|]. split; [done|].
  unfold tidy in Htidy. simpl in Htidy. by rewrite Ht1 in Htidy.
Qed.

(** The constructor, when it returns, leaves a ready instance. *)
Lemma init_ready pat mc ms k w st :
  init E pat mc ms k w = (Ok tt, st) → ready (length (streams w)) st.
Proof.
  unfold init. intros H.
  pose proof (next_stream_ready (length (streams w)) (fresh pat mc ms k, w)) as Hr.
  rewrite H in Hr. apply Hr; simpl; eauto.
  unfold tidy. simpl. intros h s Hge Hl.
  apply lookup_lt_Some in Hl. lia.
Qed.

(** When it raises, it has made no archive writer. *)
Lemma init_raise_streams pat mc ms k w e st :
  init E pat mc ms k w = (Raise e, st) → streams (snd st) = streams w.
Proof.
  unfold init. rewrite next_stream_spec, finish_spec. simpl.
  repeat case_match; intros; simplify_eq; done.
Qed.

(** A session (constructor, with block, writes) leaves every archive
    writer it made closed exactly once, whether all writes returned or one
    of them raised; and the outcome is that of the writes. *)
Lemma session_closes_every_shard pat mc ms k objs (w : World KW sample) r st :
  session E pat mc ms k objs w = (r, st) →
  (∀ h s, (length (streams w) ≤ h)%nat → streams (snd st) !! h = Some s →
          s_closes s = 1%nat) ∧
  (∀ st0, init E pat mc ms k w = (Ok tt, st0) →
          r = fst (write_all E objs st0) ∧ tarstream (fst st) = None).
Proof.
  unfold session.
  destruct (init E pat mc ms k w) as [[[]|e] st0] eqn:Hi.
  - pose proof (write_all_ready objs _ _ (init_ready _ _ _ _ _ _ Hi)) as Hr.
    unfold with_block, enter, ret.
    destruct (write_all E objs st0) as [rb st1] eqn:Hw. simpl in Hr.
    destruct (exit_ready _ _ Hr) as (o & w' & -> & Ht & Hcl).
    intros [= <- <-]. split; [done|]. intros ? [= <-]. by rewrite Hw.
  - intros [= <- <-]. split; [|done].
    intros h s Hge Hl. rewrite (init_raise_streams _ _ _ _ _ _ _ Hi) in Hl.
    apply lookup_lt_Some in Hl. lia.
Qed.

End Sessions.

End Facts.

(** *** The theorems at concrete sessions *)

Lemma demo3_is_new :
  init sized "shard-%06d.tar" 3 default_maxsize tt (world0 0) = (Ok tt, demo3).
Proof. vm_compute. reflexivity. Qed.

Lemma demo_cap_is_new :
  init sized "shard-%06d.tar" 1000 (Finite (inject_Z 10)) tt (world0 0)
    = (Ok tt, demo_cap).
Proof. vm_compute. reflexivity. Qed.

Lemma demo_full_is_full :
  write sized (Some 5)
    (snd (init sized "shard-%06d.tar" 1 default_maxsize tt (world0 0)))
    = (Ok tt, demo_full) ∧
  count (fst demo_full) = Some 1 ∧ size (fst demo_full) = Some 5 ∧
  total (fst demo_full) = 1.
Proof. vm_compute. auto. Qed.

Lemma soft_size_cap_witness :
  let w1 := alter_stream (note_record (Some 6)) 0 (snd demo_cap) in
  let w2 := alter_stream (note_record (Some 6)) 0 w1 in
  ∃ o1 o2,
    write sized (Some 6) (fst demo_cap, snd demo_cap) = (Ok tt, (o1, w1)) ∧
    size o1 = Some 6 ∧
    must_rotate (o1, w1) = (Ok false, (o1, w1)) ∧
    write sized (Some 6) (o1, w1) = (Ok tt, (o2, w2)) ∧
    size o2 = Some 12 ∧ count o2 = Some 2 ∧
    shard o2 = shard (fst demo_cap) ∧ tarstream o2 = Some (Some 0%nat) ∧
    counter w2 = counter (snd demo_cap) ∧
    must_rotate (o2, w2) = (Ok true, (o2, w2)).
Proof.
  apply (soft_size_cap sized (fst demo_cap) (snd demo_cap) 0 (Some 6) (Some 6));
    vm_compute; reflexivity.
Defined.

Lemma count_rotation_witness :
  ∃ st0 o' w',
    init sized "shard-%06d.tar" 3 default_maxsize tt (world0 0) = (Ok tt, st0) ∧
    write_all sized (replicate 7 (Some 1)) st0 = (Ok tt, (o', w')) ∧
    streams w' = [] ++
      [MkStream "shard-000000.tar" tt (replicate 3 (Some 1)) 1;
       MkStream "shard-000001.tar" tt (replicate 3 (Some 1)) 1;
       MkStream "shard-000002.tar" tt [Some 1] 0] ∧
    opened w' = [] ++
      ["shard-000000.tar"; "shard-000001.tar"; "shard-000002.tar"]%string ∧
    counter w' = 0 + 3 ∧ shard o' = Some (0 + 2) ∧
    count o' = Some 1 ∧ total o' = 7 ∧
    counter (snd (snd (write_all sized (replicate 3 (Some 1)) st0))) = 0 + 1 ∧
    counter (snd (snd (write_all sized (replicate 4 (Some 1)) st0))) = 0 + 2 ∧
    counter (snd (snd (write_all sized (replicate 6 (Some 1)) st0))) = 0 + 2.
Proof.
  apply (count_rotation sized "shard-%06d.tar" default_maxsize tt (world0 0)
           "shard-000000.tar" "shard-000001.tar" "shard-000002.tar"
           (Some 1) (Some 1) (Some 1) (Some 1) (Some 1) (Some 1) (Some 1));
    try (vm_compute; reflexivity).
  - intros w h x Hx.
    repeat (apply elem_of_cons in Hx; destruct Hx as [Hx|Hx];
            [rewrite Hx; reflexivity|]).
    by apply elem_of_nil in Hx.
  - intros s Hs. assert (s = 0 ∨ s = 1 ∨ s = 2) as [-> | [-> | ->]] by lia;
      reflexivity.
Defined.

Lemma lifetime_total_witness :
  let st := snd (write_all sized (replicate 7 (Some 1)) demo3) in
  init sized "shard-%06d.tar" 3 default_maxsize tt (world0 0) = (Ok tt, demo3) ∧
  write_all sized (replicate 7 (Some 1)) demo3 = (Ok tt, st) ∧
  counter (snd st) = 3 ∧ total (fst st) = 7.
Proof.
  intros st. split; [vm_compute; reflexivity|].
  split; [vm_compute; reflexivity|].
  split; [vm_compute; reflexivity|].
  apply (lifetime_total sized "shard-%06d.tar" 3 default_maxsize tt (world0 0)
           (replicate 7 (Some 1)) demo3 st); vm_compute; reflexivity.
Defined.

Lemma write_failure_witness :
  ∃ o1 w1,
    next_stream sized demo_full = (Ok tt, (o1, w1)) ∧
    write sized None (fst demo_full, snd demo_full)
      = (Raise (OSError "write failed"), (o1, w1)) ∧
    total o1 = total (fst demo_full) ∧
    count o1 = Some 0 ∧ size o1 = Some 0.
Proof.
  eexists _, _. split; [vm_compute; reflexivity|].
  apply (write_failure sized None (fst demo_full) (snd demo_full) true _ _
           1 (OSError "write failed")); vm_compute; reflexivity.
Defined.

(** C5 as first stated fails: here the archive writer's [write] raises
    in a call of [write] that rotated first, and [count] and [size] are
    not what they were before the call. *)
Lemma write_failure_resets_counts :
  let r := write sized None demo_full in
  fst r = Raise (OSError "write failed") ∧
  total (fst (snd r)) = total (fst demo_full) ∧
  count (fst demo_full) = Some 1 ∧ count (fst (snd r)) = Some 0 ∧
  size (fst demo_full) = Some 5 ∧ size (fst (snd r)) = Some 0 ∧
  ¬ (count (fst (snd r)) = count (fst demo_full) ∧
     size (fst (snd r)) = size (fst demo_full)).
Proof.
  intros r. split_and!; try (vm_compute; reflexivity).
  intros [H _]. vm_compute in H. discriminate H.
Qed.

Lemma finish_idempotent_witness :
  ∃ st1,
    finish sized demo3 = (Ok tt, st1) ∧
    finish sized st1 = (Ok tt, st1) ∧
    closes_of 0 (snd demo3) = Some 0%nat ∧
    closes_of 0 (snd st1) = Some 1%nat.
Proof.
  eexists. split; [vm_compute; reflexivity|].
  destruct (finish_idempotent sized demo3) as [_ H].
  split; [|split; vm_compute; reflexivity].
  refine (proj1 (H _ _)). vm_compute; reflexivity.
Defined.

(** A block whose second write raises. *)
Lemma scoped_cleanup_witness :
  let body := write_all sized [Some 1; None; Some 2] in
  ∃ st1 rx st2,
    body demo3 = (Raise (OSError "write failed"), st1) ∧
    tarstream (fst st1) = Some (Some 0%nat) ∧
    exit sized st1 = (rx, st2) ∧
    with_block sized body demo3
      = (match rx with
         | Ok _ => Raise (OSError "write failed")
         | Raise e => Raise e
         end, st2) ∧
    closes_of 0 (snd st2) = S <$> closes_of 0 (snd st1) ∧
    counter (snd st2) = counter (snd st1).
Proof.
  intros body. exists demo_raised.
  destruct (scoped_cleanup sized body demo3 demo_raised
              (Raise (OSError "write failed")) 0)
    as (rx & st2 & Hx & Hw & Hc & _ & Hk & _);
    [vm_compute; reflexivity | vm_compute; reflexivity |].
  exists rx, st2. split; [vm_compute; reflexivity|].
  split; [vm_compute; reflexivity|]. auto.
Defined.

(** The pattern and index of the interface description. *)
Lemma eager_first_shard_witness :
  ∃ o w',
    init sized "shard-%06d.tar" default_maxcount default_maxsize tt (world0 3)
      = (Ok tt, (o, w')) ∧
    shard o = Some 3 ∧ counter w' = Ctypes.store Ctypes.int32 (3 + 1) ∧
    (Ctypes.lo Ctypes.int32 ≤ 3 < Ctypes.hi Ctypes.int32 →
     counter w' = 3 + 1) ∧
    (3 = Ctypes.hi Ctypes.int32 → counter w' = Ctypes.lo Ctypes.int32) ∧
    fname o = Some "shard-000003.tar"%string ∧
    opened w' = [] ++ ["shard-000003.tar"%string] ∧
    streams w' = [] ++ [MkStream "shard-000003.tar" tt [] 0] ∧
    tarstream o = Some (Some 0%nat) ∧
    count o = Some 0 ∧ size o = Some 0 ∧ total o = 0 ∧
    log w' = [] ++ [Opened_shard "shard-000003.tar"] ∧
    maxcount o = default_maxcount ∧ maxsize o = default_maxsize ∧
    pattern o = "shard-%06d.tar"%string ∧ kw o = tt.
Proof.
  apply (eager_first_shard sized "shard-%06d.tar" default_maxcount
           default_maxsize tt (world0 3) "shard-000003.tar");
    vm_compute; reflexivity.
Defined.

(** C8 as first stated fails at the greatest index: the constructor on a
    [Value('i', 2**31 - 1)] returns, and leaves the counter at [-2**31],
    which is not one higher. *)
Lemma first_shard_wraps_counter :
  let w := world0 2147483647 in
  init sized "shard-%06d.tar" default_maxcount default_maxsize tt w
    = (Ok tt, demo_last) ∧
  shard (fst demo_last) = Some 2147483647 ∧
  fname (fst demo_last) = Some "shard-2147483647.tar"%string ∧
  counter (snd demo_last) = -2147483648 ∧
  counter (snd demo_last) ≠ counter w + 1.
Proof.
  intros w. split_and!; try (vm_compute; reflexivity).
  vm_compute. discriminate.
Qed.

Lemma malformed_pattern_witness :
  PyFormat.no_site "shard.tar" = true ∧
  init sized "shard.tar" default_maxcount default_maxsize tt (world0 3) =
    (Raise (FormatError PyFormat.TypeError_not_all_converted),
     (set_shard (Some 3) (fresh "shard.tar" default_maxcount default_maxsize tt),
      set_counter (3 + 1) (world0 3))).
Proof.
  split; [vm_compute; reflexivity|].
  apply (malformed_pattern sized "shard.tar" default_maxcount default_maxsize
           tt (world0 3)). vm_compute; reflexivity.
Defined.

Lemma use_after_close_witness :
  ∃ st',
    close sized demo3 = (Ok tt, st') ∧
    tarstream (fst st') = None ∧
    write sized (Some 1) st' = (Raise (AttributeError "tarstream"), st') ∧
    close sized st' = (Raise (AttributeError "tarstream"), st').
Proof.
  eexists. split; [vm_compute; reflexivity|].
  destruct (use_after_close sized demo3 _ ltac:(vm_compute; reflexivity))
    as (Ht & _ & _ & _ & Hw & _ & Hc & _).
  split; [exact Ht|]. split; [apply Hw|exact Hc].
Defined.

End WriterFacts.

(** * Further properties *)

(** ** Accounts of a session *)

Module LedgerFacts.
Import Writer Ledger WriterFacts.

Section Facts.
Context {KW sample : Type} (E : Env KW sample).
Implicit Types (o : Obj KW) (w : World KW sample) (st : St KW sample).

Lemma records_alter_close h (l : list (Stream KW sample)) :
  s_records <$> alter note_close h l = s_records <$> l.
Proof.
  apply list_eq. intros i. rewrite !list_lookup_fmap, list_lookup_alter.
  case_decide; [subst|done]. by destruct (l !! i).
Qed.

Lemma written_close n0 h w :
  written n0 (alter_stream note_close h w) = written n0 w.
Proof.
  unfold written. simpl. by rewrite !fmap_drop, records_alter_close.
Qed.

Lemma last_stream (l : list (Stream KW sample)) h s :
  length l = S h → l !! h = Some s → l = take h l ++ [s].
Proof.
  intros Hlen Hl. rewrite <- (take_drop_middle l h s Hl) at 1.
  rewrite (drop_ge l (S h)) by lia. done.
Qed.

Lemma written_note_record n0 w h s x :
  length (streams w) = S h → (n0 ≤ h)%nat → streams w !! h = Some s →
  written n0 (alter_stream (note_record x) h w) = written n0 w ++ [x].
Proof.
  intros Hlen Hn Hl. unfold written. simpl.
  rewrite (last_stream _ _ _ Hlen Hl) at 2.
  assert (Halt : alter (note_record x) h (streams w)
                 = take h (streams w) ++ [note_record x s]).
  { rewrite (last_stream _ _ _ Hlen Hl) at 1.
    assert (Hh : length (take h (streams w)) = h) by (rewrite length_take; lia).
    rewrite <- Hh at 1. replace (length (take h (streams w)))
      with (length (take h (streams w)) + 0)%nat by lia.
    by rewrite alter_app_r. }
  rewrite Halt.
  assert (Hh : (n0 ≤ length (take h (streams w)))%nat)
    by (rewrite length_take; lia).
  rewrite !drop_app_le by done. rewrite !fmap_app, !concat_app. simpl.
  by rewrite !app_nil_r, app_assoc.
Qed.

Lemma lookup_alter_close h (l : list (Stream KW sample)) h' s' :
  alter note_close h l !! h' = Some s' →
  ∃ s, l !! h' = Some s ∧ s_records s' = s_records s.
Proof.
  rewrite list_lookup_alter. case_decide.
  - subst. intros (s & Hl & ->)%fmap_Some. by exists s.
  - intros Hl. by exists s'.
Qed.

Lemma snug_close n0 o w h :
  snug n0 (o, w) → snug n0 (o, alter_stream note_close h w).
Proof.
  unfold snug. simpl. rewrite length_alter.
  intros (Hn & Hc & Hs & Ht & Hcap). split_and!; try done.
  - destruct (tarstream o) as [[h0|]|]; try done.
    destruct Ht as (Hlen & Hn0 & s & Hl & Hcount). split_and!; try done.
    rewrite list_lookup_alter. case_decide.
    + subst. rewrite Hl. simpl. eexists. split; [done|]. done.
    + by exists s.
  - intros h' s' Hge (s & Hl & ->)%lookup_alter_close. eauto.
Qed.

Lemma snug_log n0 o w e : snug n0 (o, w) → snug n0 (o, add_log e w).
Proof. done. Qed.

Lemma snug_no_shard n0 o w :
  snug n0 (o, w) → snug n0 (set_tarstream (Some None) o, w).
Proof.
  unfold snug. simpl. intros (Hn & Hc & Hs & Ht & Hcap). split_and!; done.
Qed.

(** [finish] keeps the accounts. *)
Lemma finish_snug n0 st :
  snug n0 st →
  let st' := snd (finish E st) in
  snug n0 st' ∧ written n0 (snd st') = written n0 (snd st) ∧
  total (fst st') = total (fst st) ∧
  (fst (finish E st) = Ok tt → tarstream (fst st') = Some None).
Proof.
  destruct st as [o w]. intros Hs. rewrite finish_spec. cbv zeta.
  destruct (tarstream o) as [[h|]|] eqn:Ht; simpl; [| |done].
  - destruct (tar_close E w h); simpl.
    { split_and!; [by apply snug_close|by rewrite written_close|done|done]. }
    destruct (fname o); simpl.
    + split_and!; [|apply written_close|done|done].
      by apply snug_no_shard, snug_log, snug_close.
    + split_and!; [|apply written_close|done|done].
      by apply snug_log, snug_close.
  - split_and!; done.
Qed.

(** So does a rotation, whether it returns or raises. *)
Lemma next_stream_snug n0 st :
  snug n0 st →
  let st' := snd (next_stream E st) in
  snug n0 st' ∧ written n0 (snd st') = written n0 (snd st) ∧
  total (fst st') = total (fst st) ∧
  (fst (next_stream E st) = Ok tt →
   count (fst st') = Some 0 ∧
   ∃ h s, tarstream (fst st') = Some (Some h) ∧
          streams (snd st') !! h = Some s ∧ s_records s = [] ∧
          length (streams (snd st')) = S h ∧ (n0 ≤ h)%nat).
Proof.
  destruct st as [o w]. intros Hs. rewrite next_stream_spec.
  destruct (finish_snug n0 (o, w) Hs) as (Hs1 & Hw1 & Ht1 & Hnone).
  destruct (finish E (o, w)) as [[[]|e] [o1 w1]]; simpl in *; [|done].
  specialize (Hnone eq_refl). cbv zeta.
  assert (Hfail : ∀ o2 w2, tarstream o2 = Some None → streams w2 = streams w1 →
            count o2 = count o1 → size o2 = size o1 → maxcount o2 = maxcount o1 →
            total o2 = total o1 →
            snug n0 (o2, w2) ∧ written n0 w2 = written n0 w ∧ total o2 = total o).
  { intros o2 w2 Ht2 Hw2 Hc2 Hs2 Hm2 Htot2. unfold snug, written in *. simpl in *.
    rewrite Ht2, Hw2, Hc2, Hs2, Hm2, Htot2.
    destruct Hs1 as (? & ? & ? & _ & ?). split_and!; try done. }
  destruct (PyFormat.format _ _) as [f| | | | | |]; cbn [fst snd].
  2-7: (destruct (Hfail (set_shard (Some (counter w1)) o1)
                   (set_counter (Ctypes.store (counter_cell E) (counter w1 + 1))
                      w1)) as (? & ? & ?);
        [done..|split_and!; done]).
  destruct (os_open E _ f); cbn [fst snd].
  { destruct (Hfail (set_fname (Some f) (set_shard (Some (counter w1)) o1))
                   (set_counter (Ctypes.store (counter_cell E) (counter w1 + 1))
                      w1)) as (? & ? & ?);
      [done..|split_and!; done]. }
  destruct (tar_new E _ f _); cbn [fst snd].
  { destruct (Hfail (set_fname (Some f) (set_shard (Some (counter w1)) o1))
               (add_log (Opened_shard f)
                  (add_opened f
                     (set_counter
                        (Ctypes.store (counter_cell E) (counter w1 + 1)) w1))))
      as (? & ? & ?); [done..|split_and!; done]. }
  destruct Hs1 as (Hn & Hc & Hsz & _ & Hcap). simpl in *.
  assert (Hnew : (streams w1 ++ [MkStream f (kw o1) [] 0]) !! length (streams w1)
                 = Some (MkStream f (kw o1) [] 0)).
  { rewrite lookup_app_r by done. by rewrite Nat.sub_diag. }
  split_and!.
  - unfold snug. simpl. rewrite length_app. simpl. split_and!; eauto; try lia.
    intros h s Hge Hl.
    destruct (decide (h < length (streams w1))%nat) as [Hlt|Hnlt].
    + rewrite lookup_app_l in Hl by done. eauto.
    + assert (h = length (streams w1)) as ->.
      { apply lookup_lt_Some in Hl. rewrite length_app in Hl. simpl in Hl. lia. }
      rewrite Hnew in Hl. simplify_eq. simpl. lia.
  - rewrite <- Hw1. unfold written. simpl.
    rewrite drop_app_le by done. rewrite fmap_app, concat_app. simpl.
    by rewrite app_nil_r.
  - done.
  - intros _. split; [done|].
    eexists _, _. split_and!; [done|exact Hnew|done| |done].
    rewrite length_app. simpl. lia.
Qed.

Lemma lookup_alter_record x h (l : list (Stream KW sample)) h' s' :
  alter (note_record x) h l !! h' = Some s' →
  ∃ s, l !! h' = Some s ∧
       s_records s' = if decide (h = h') then s_records s ++ [x] else s_records s.
Proof.
  rewrite list_lookup_alter. case_decide.
  - subst. intros (s & Hl & ->)%fmap_Some. by exists s.
  - intros Hl. by exists s'.
Qed.

(** A write that returns adds its record at the end of the records
    written so far and counts it; a write that raises adds nothing and
    counts nothing. *)
Lemma write_snug n0 obj st :
  snug n0 st →
  let st' := snd (write E obj st) in
  snug n0 st' ∧
  match fst (write E obj st) with
  | Ok _ => written n0 (snd st') = written n0 (snd st) ++ [obj] ∧
            total (fst st') = total (fst st) + 1
  | Raise _ => written n0 (snd st') = written n0 (snd st) ∧
               total (fst st') = total (fst st)
  end.
Proof.
  destruct st as [o w]. intros Hs. rewrite write_spec. cbv zeta.
  destruct (must_rotate (o, w)) as [[b|e] st0] eqn:Hm.
  2:{ rewrite (must_rotate_state _ _ _ _ Hm). done. }
  assert (Hrot : ∀ r o1 w1,
    (if b then next_stream E (o, w) else (Ok tt, (o, w))) = (r, (o1, w1)) →
    snug n0 (o1, w1) ∧ written n0 w1 = written n0 w ∧ total o1 = total o ∧
    (r = Ok tt → ∀ c, count o1 = Some c → c < maxcount o1 ∨ c = 0)).
  { intros r o1 w1 Hr. destruct b.
    - destruct (next_stream_snug n0 (o, w) Hs) as (H1 & H2 & H3 & H4).
      rewrite Hr in *. simpl in *. split_and!; try done.
      intros -> c Hc. destruct (H4 eq_refl) as (Hc0 & _). right. congruence.
    - simplify_eq. split_and!; try done. intros _ c Hc.
      destruct (must_rotate_false _ _ _ Hm) as (? & c' & ? & _ & Hc' & _ & Hlt & _).
      left. congruence. }
  destruct (if b then _ else _) as [[[]|e] [o1 w1]]; simpl.
  2:{ destruct (Hrot _ _ _ eq_refl) as (? & ? & ? & _). done. }
  destruct (Hrot _ _ _ eq_refl) as (Hs1 & Hw1 & Ht1 & Hc1).
  specialize (Hc1 eq_refl).
  pose proof Hs1 as (Hn & [c Hc] & [sz Hsz] & Hopen & Hcap). simpl in *.
  destruct (tarstream o1) as [[h|]|] eqn:Ht; [| |done]; simpl.
  2:{ done. }
  destruct Hopen as (Hlen & Hn0 & s & Hl & Hcount).
  destruct (tar_write E w1 h obj) as [n|e]; simpl; [|done].
  assert (Hcs : c = Z.of_nat (length (s_records s))) by congruence.
  assert (Hcc : c < maxcount o1 ∨ c = 0) by eauto.
  clear Hcount Hc1.
  rewrite Hc, Hsz. simpl. split_and!.
  - unfold snug. simpl. rewrite Ht, length_alter. split_and!; eauto.
    + rewrite list_lookup_alter, decide_True by done. rewrite Hl. simpl.
      eexists. split; [done|]. simpl. rewrite length_app. simpl.
      f_equal. lia.
    + intros h' s' Hge (s0 & Hl0 & Hrec)%lookup_alter_record.
      rewrite Hrec. case_decide; [|eauto]. subst h'.
      rewrite Hl in Hl0. injection Hl0 as <-. rewrite length_app. simpl.
      destruct Hcc; lia.
  - rewrite <- Hw1. by apply (written_note_record n0 w1 h s).
  - lia.
Qed.

Lemma write_all_snug n0 objs : ∀ st,
  snug n0 st →
  let st' := snd (write_all E objs st) in
  snug n0 st' ∧
  ∃ k, (k ≤ length objs)%nat ∧
       written n0 (snd st') = written n0 (snd st) ++ take k objs ∧
       total (fst st') = total (fst st) + Z.of_nat k ∧
       (fst (write_all E objs st) = Ok tt → k = length objs).
Proof.
  induction objs as [|obj objs IH]; intros st Hs; simpl.
  - split; [done|]. exists 0%nat. rewrite app_nil_r. split_and!; try done. lia.
  - unfold bind. destruct (write_snug n0 obj st Hs) as (Hs1 & Hw).
    destruct (write E obj st) as [[[]|e] st1]; simpl in *.
    + destruct (IH st1 Hs1) as (Hs2 & k & Hk & Hw2 & Ht2 & Hall).
      split; [done|]. exists (S k). destruct Hw as [Hw Ht]. split_and!.
      * lia.
      * rewrite Hw2, Hw, <- app_assoc. done.
      * rewrite Ht2, Ht. lia.
      * intros Hok. by rewrite (Hall Hok).
    + split; [done|]. exists 0%nat. destruct Hw as [Hw Ht]. simpl.
      rewrite app_nil_r. split_and!; try done; lia.
Qed.

(** A new instance is snug, with nothing written. *)
Lemma init_snug pat mc ms k w st :
  init E pat mc ms k w = (Ok tt, st) →
  snug (length (streams w)) st ∧ written (length (streams w)) (snd st) = [] ∧
  total (fst st) = 0 ∧ maxcount (fst st) = mc.
Proof.
  unfold init. intros H.
  assert (Hf : snug (length (streams w)) (fresh pat mc ms k, w)).
  { unfold snug. simpl. split_and!; eauto.
    intros h s Hge Hl. apply lookup_lt_Some in Hl. lia. }
  destruct (next_stream_snug _ _ Hf) as (Hs & Hw & Ht & _).
  pose proof (next_stream_frame E (fresh pat mc ms k, w)) as (_ & Hm & _).
  rewrite H in *. simpl in *. split_and!; try done.
  rewrite Hw. unfold written. by rewrite drop_all.
Qed.

End Facts.
End LedgerFacts.

(** ** More on the shared counter *)

Module CounterMore.
Import Ctypes Counter CounterFacts.



(** X1.  In every state N callers can reach, at most one caller is
    between taking and releasing the lock, and none is while the lock
    is free. *)
Theorem one_caller_inside (c : cell) (k : Z) (n : nat) (sched : list nat)
    (st : state) :
  run c sched (init k n) = Some st →
  (length (filter (λ p, in_cs p = true) (callers st)) ≤ 1)%nat ∧
  (locked st = false → Forall (λ p, in_cs p = false) (callers st)).
Proof.
  intros Hrun.
  pose proof (run_one_inside c _ _ _ Hrun (init_one_inside k n)) as Hlock.
  unfold one_inside in Hlock. split.
  - rewrite Hlock. destruct (locked st); lia.
  - intros Hfree. rewrite Hfree in Hlock.
    apply length_zero_iff_nil in Hlock.
    induction (callers st) as [|p l IH]; [constructor|].
    rewrite filter_cons in Hlock. destruct (decide (in_cs p = true)) as [|Hp]; [done|].
    constructor; [by destruct (in_cs p)|by apply IH].
Qed.

Lemma one_caller_inside_witness :
  let st := State 5 true [Acquire; StoreTmp 5 5; Acquire] in
  run int32 [1; 1; 1]%nat (init 5 3) = Some st ∧
  (length (filter (λ p, in_cs p = true) (callers st)) ≤ 1)%nat ∧
  step int32 0 st = None ∧ step int32 2 st = None.
Proof.
  split; [reflexivity|]. split; [|split; reflexivity].
  apply (one_caller_inside int32 5 3 [1; 1; 1]%nat). reflexivity.
Defined.



End CounterMore.

(** ** More on the writer *)

Module WriterMore.
Import Writer Ledger WriterFacts LedgerFacts.

Section Facts.
Context {KW sample : Type} (E : Env KW sample).
Implicit Types (o : Obj KW) (w : World KW sample) (st : St KW sample).

Lemma finish_index st :
  shard (fst (snd (finish E st))) = shard (fst st) ∧
  counter (snd (snd (finish E st))) = counter (snd st).
Proof.
  destruct st as [o w]. rewrite finish_spec. cbv zeta.
  repeat case_match; done.
Qed.

Lemma next_stream_index st :
  index_step (counter_cell E) st (snd (next_stream E st)).
Proof.
  destruct st as [o w]. rewrite next_stream_spec.
  destruct (finish_index (o, w)) as [Hs Hc].
  destruct (finish E (o, w)) as [[[]|e] [o1 w1]]; simpl in *.
  2:{ left. auto. }
  right. cbv zeta. cbn [fst snd]. rewrite <- Hc.
  destruct (PyFormat.format _ _) as [f| | | | | |]; simpl; try done.
  destruct (os_open E _ f); simpl; try done.
  destruct (tar_new E _ f _); simpl; done.
Qed.

Lemma write_index obj st :
  index_step (counter_cell E) st (snd (write E obj st)).
Proof.
  destruct st as [o w]. rewrite write_spec. cbv zeta.
  destruct (must_rotate (o, w)) as [[b|e] st0] eqn:Hm.
  2:{ rewrite (must_rotate_state _ _ _ _ Hm). left. auto. }
  assert (Hrot : index_step (counter_cell E) (o, w)
            (snd (if b then next_stream E (o, w) else (Ok tt, (o, w))))).
  { destruct b; [apply next_stream_index|left; auto]. }
  destruct (if b then _ else _) as [[[]|e] [o1 w1]]; [|done].
  destruct (tarstream o1) as [[h|]|]; try done.
  destruct (tar_write E w1 h obj); try done.
  destruct (count o1); try done.
  destruct (size o1); done.
Qed.

Lemma close_index st :
  counter (snd (snd (close E st))) = counter (snd st) ∧
  (shard (fst (snd (close E st))) = shard (fst st) ∨
   shard (fst (snd (close E st))) = None).
Proof.
  destruct st as [o w]. rewrite close_spec.
  destruct (finish_index (o, w)) as [Hs Hc].
  destruct (finish E (o, w)) as [[[]|e] [o1 w1]]; simpl in *; [|auto].
  repeat case_match; simpl; auto.
Qed.


Lemma finish_opened st :
  opened (snd (snd (finish E st))) = opened (snd st) ∧
  pattern (fst (snd (finish E st))) = pattern (fst st).
Proof.
  destruct st as [o w]. rewrite finish_spec. cbv zeta.
  repeat case_match; done.
Qed.

Lemma finish_opens st : opens (counter_cell E) st (snd (finish E st)).
Proof.
  destruct (finish_opened st) as [Ho Hp]. destruct (finish_index st) as [_ Hc].
  split; [done|]. left. split; [done|]. by left.
Qed.

Lemma next_stream_opens st :
  opens (counter_cell E) st (snd (next_stream E st)).
Proof.
  destruct st as [o w]. rewrite next_stream_spec.
  pose proof (finish_opened (o, w)) as [Ho Hp].
  pose proof (finish_index (o, w)) as [_ Hc]. simpl in *.
  destruct (finish E (o, w)) as [[[]|e] [o1 w1]]; simpl in *.
  2:{ unfold opens. simpl. split; [done|]. left. split; [done|]. by left. }
  cbv zeta. unfold opens. simpl. rewrite <- Hp, <- Ho, <- Hc.
  destruct (PyFormat.format _ _) as [f| | | | | |] eqn:Hf; simpl;
    try (split; [done|left; split; [done|by right]]).
  destruct (os_open E _ f); simpl; [split; [done|left; split; [done|by right]]|].
  destruct (tar_new E _ f _); simpl; (split; [done|right; eauto]).
Qed.

Lemma write_opens obj st :
  opens (counter_cell E) st (snd (write E obj st)).
Proof.
  destruct st as [o w]. rewrite write_spec. cbv zeta.
  assert (Hsame : opens (counter_cell E) (o, w) (o, w)).
  { split; [done|]. left. split; [done|]. by left. }
  destruct (must_rotate (o, w)) as [[b|e] st0] eqn:Hm.
  2:{ by rewrite (must_rotate_state _ _ _ _ Hm). }
  assert (Hrot : opens (counter_cell E) (o, w)
            (snd (if b then next_stream E (o, w) else (Ok tt, (o, w))))).
  { destruct b; [apply next_stream_opens|done]. }
  destruct (if b then _ else _) as [[[]|e] [o1 w1]]; [|done].
  destruct (tarstream o1) as [[h|]|]; try done.
  destruct (tar_write E w1 h obj); try done.
  destruct (count o1); try done.
  destruct (size o1); done.
Qed.

Lemma close_opens st : opens (counter_cell E) st (snd (close E st)).
Proof.
  destruct st as [o w]. rewrite close_spec.
  pose proof (finish_opens (o, w)) as Hf.
  destruct (finish E (o, w)) as [[[]|e] [o1 w1]]; simpl in *; [|done].
  repeat case_match; done.
Qed.

Lemma init_opens pat mc ms k w :
  opens (counter_cell E) (fresh pat mc ms k, w) (snd (init E pat mc ms k w)).
Proof. apply next_stream_opens. Qed.

(** The constructor's index, whatever fails. *)
Lemma init_index pat mc ms k w :
  counter (snd (snd (init E pat mc ms k w)))
    = Ctypes.store (counter_cell E) (counter w + 1) ∧
  shard (fst (snd (init E pat mc ms k w))) = Some (counter w).
Proof.
  unfold init. rewrite next_stream_spec, finish_spec. simpl.
  destruct (PyFormat.format _ _) as [f| | | | | |]; simpl; try done.
  destruct (os_open E _ f); simpl; try done.
  destruct (tar_new E _ f _); simpl; done.
Qed.

(** A constructor that raises has made no archive writer. *)
Lemma init_raise pat mc ms k w e :
  fst (init E pat mc ms k w) = Raise e →
  streams (snd (snd (init E pat mc ms k w))) = streams w ∧
  tarstream (fst (snd (init E pat mc ms k w))) = Some None.
Proof.
  unfold init. rewrite next_stream_spec, finish_spec. simpl.
  destruct (PyFormat.format _ _) as [f| | | | | |]; simpl; try done.
  destruct (os_open E _ f); simpl; try done.
  destruct (tar_new E _ f _); simpl; done.
Qed.

(** [finish] leaves no shard open when it returns. *)
Lemma finish_ok_closed st st1 :
  finish E st = (Ok tt, st1) → tarstream (fst st1) = Some None.
Proof.
  destruct st as [o w]. rewrite finish_spec. cbv zeta.
  intros Hf. repeat case_match; by simplify_eq.
Qed.

(** X3.  Whatever its arguments and whatever fails, the constructor
    takes exactly one index: [shard] is the value the counter had, and the
    successor of that value has been stored in the counter's cell, so
    that the counter ends one higher if it stood below the greatest
    integer of the cell, and at the least integer of the cell if it stood
    at the greatest.  When the constructor raises, no archive writer has
    been made and no shard is open. *)
Theorem init_takes_one_index (pat : string) (mc : Z) (ms : pyfloat) (k : KW)
    (w : World KW sample) :
  let res := init E pat mc ms k w in
  let cell := counter_cell E in
  shard (fst (snd res)) = Some (counter w) ∧
  counter (snd (snd res)) = Ctypes.store cell (counter w + 1) ∧
  (Ctypes.lo cell ≤ counter w < Ctypes.hi cell →
   counter (snd (snd res)) = counter w + 1) ∧
  (counter w = Ctypes.hi cell → counter (snd (snd res)) = Ctypes.lo cell) ∧
  (∀ e, fst res = Raise e →
        streams (snd (snd res)) = streams w ∧
        tarstream (fst (snd res)) = Some None).
Proof.
  intros res cell. subst cell.
  destruct (init_index pat mc ms k w) as [Hc Hs]. fold res in Hc, Hs.
  split; [done|]. split; [done|]. split; [|split].
  - intros Hfit. rewrite Hc. apply CtypesFacts.store_id. lia.
  - intros Hhi. rewrite Hc, Hhi. apply CtypesFacts.store_wraps.
  - intros e. apply init_raise.
Qed.

(** X4.  [finish] and [close] never touch the counter.  [next_stream] and
    [write] either leave the counter and [shard] as they were, or store
    the counter's value in [shard] and the successor of that value in the
    counter's cell; the counter changes in no other way, and by at most
    one such step in a call. *)
Theorem counter_steps (obj : sample) (st : St KW sample) :
  counter (snd (snd (finish E st))) = counter (snd st) ∧
  counter (snd (snd (close E st))) = counter (snd st) ∧
  index_step (counter_cell E) st (snd (next_stream E st)) ∧
  index_step (counter_cell E) st (snd (write E obj st)).
Proof.
  split_and!.
  - apply finish_index.
  - apply close_index.
  - apply next_stream_index.
  - apply write_index.
Qed.

(** X5.  A [finish] in the middle does not end the instance: the next
    write that returns has opened a new shard under a new index, the
    counter's value, and its record is the only one in the new archive
    writer. *)
Theorem finish_then_write (obj : sample) (st st1 st2 : St KW sample) :
  finish E st = (Ok tt, st1) →
  write E obj st1 = (Ok tt, st2) →
  shard (fst st2) = Some (counter (snd st)) ∧
  counter (snd st2) = Ctypes.store (counter_cell E) (counter (snd st) + 1) ∧
  count (fst st2) = Some 1 ∧
  total (fst st2) = total (fst st) + 1 ∧
  tarstream (fst st2) = Some (Some (length (streams (snd st)))) ∧
  s_records <$> streams (snd st2) !! length (streams (snd st)) = Some [obj].
Proof.
  intros Hf Hw. destruct st as [o w].
  pose proof (finish_index (o, w)) as [_ Hc].
  pose proof (finish_frame E (o, w)) as (Htot & _).
  pose proof (finish_streams_length E (o, w)) as Hlen.
  rewrite Hf in Hc, Htot, Hlen. simpl in *.
  destruct st1 as [o1 w1]. simpl in *.
  assert (Ht1 : tarstream o1 = Some None).
  { rewrite finish_spec in Hf. cbv zeta in Hf. repeat case_match; by simplify_eq. }
  rewrite write_spec, must_rotate_spec, Ht1, next_stream_spec, finish_spec, Ht1 in Hw.
  cbv zeta in Hw. rewrite <- Hc, <- Htot, <- Hlen.
  destruct (PyFormat.format _ _) as [f| | | | | |]; simpl in Hw; try done.
  destruct (os_open E _ f); simpl in Hw; try done.
  destruct (tar_new E _ f _); simpl in Hw; try done.
  destruct (tar_write E _ _ obj); simpl in Hw; [|done].
  injection Hw as <-. simpl. split_and!; try done.
  rewrite list_lookup_alter, decide_True by done.
  rewrite lookup_app_r, Nat.sub_diag by done. done.
Qed.


Lemma finish_named st : named (fst st) → named (fst (snd (finish E st))).
Proof.
  destruct st as [o w]. rewrite finish_spec. cbv zeta. unfold named. simpl.
  destruct (tarstream o) as [[h|]|] eqn:Ht; simpl; rewrite ?Ht; try done.
  destruct (tar_close E w h); simpl; rewrite ?Ht; try done.
  destruct (fname o); simpl; rewrite ?Ht; [done|].
  intros (? & ? & ? & ? & ?). done.
Qed.

Lemma next_stream_named st :
  named (fst st) → named (fst (snd (next_stream E st))).
Proof.
  destruct st as [o w]. intros Hn. rewrite next_stream_spec.
  pose proof (finish_named (o, w) Hn) as Hn1.
  pose proof (finish_ok_closed (o, w)) as Hidem.
  destruct (finish E (o, w)) as [[[]|e] [o1 w1]]; simpl in *; [|done].
  pose proof (Hidem _ eq_refl) as Ht1. simpl in Ht1.
  cbv zeta. unfold named.
  destruct (PyFormat.format _ _) as [f| | | | | |] eqn:Hfmt; simpl;
    rewrite ?Ht1; try done.
  destruct (os_open E _ f); simpl; rewrite ?Ht1; try done.
  destruct (tar_new E _ f _); simpl; rewrite ?Ht1; try done.
  eauto.
Qed.

Lemma write_named obj st : named (fst st) → named (fst (snd (write E obj st))).
Proof.
  destruct st as [o w]. intros Hn. rewrite write_spec. cbv zeta.
  destruct (must_rotate (o, w)) as [[b|e] st0] eqn:Hm.
  2:{ by rewrite (must_rotate_state _ _ _ _ Hm). }
  assert (Hrot : named (fst (snd (if b then next_stream E (o, w)
                                  else (Ok tt, (o, w)))))).
  { destruct b; [by apply next_stream_named|done]. }
  destruct (if b then _ else _) as [[[]|e] [o1 w1]]; [|done].
  simpl in Hrot. unfold named in *.
  destruct (tarstream o1) as [[h|]|] eqn:Ht; simpl; rewrite ?Ht; try done.
  destruct (tar_write E w1 h obj); simpl; rewrite ?Ht; try done.
  destruct (count o1); simpl; rewrite ?Ht; try done.
  destruct (size o1); simpl; rewrite ?Ht; done.
Qed.

(** X7.  From the constructor on and through any writes, returned or
    raised, the name of the open shard is the pattern formatted with the
    instance's index. *)
Theorem open_shard_named (pat : string) (mc : Z) (ms : pyfloat) (k : KW)
    (w : World KW sample) (objs : list sample) (st0 st : St KW sample)
    (r : Res unit) (h : nat) :
  init E pat mc ms k w = (Ok tt, st0) →
  write_all E objs st0 = (r, st) →
  tarstream (fst st) = Some (Some h) →
  ∃ s f, shard (fst st) = Some s ∧ fname (fst st) = Some f ∧
         pattern (fst st) = pat ∧
         PyFormat.format pat s = PyFormat.Formatted f.
Proof.
  intros Hi Hw Ht.
  assert (Hall : ∀ objs st, named (fst st) →
            named (fst (snd (write_all E objs st))) ∧
            pattern (fst (snd (write_all E objs st))) = pattern (fst st)).
  { clear. induction objs as [|obj objs IH]; intros st Hn; [done|].
    simpl. unfold bind. pose proof (write_named obj st Hn) as Hn1.
    assert (Hp : pattern (fst (snd (write E obj st))) = pattern (fst st)).
    { destruct st as [o w]. rewrite write_spec. cbv zeta.
      pose proof (next_stream_frame E (o, w)) as (_ & _ & _ & Hp & _).
      destruct (must_rotate (o, w)) as [[b|e] st0] eqn:Hm.
      2:{ by rewrite (must_rotate_state _ _ _ _ Hm). }
      destruct b.
      - destruct (next_stream E (o, w)) as [[[]|e] [o1 w1]]; simpl in *; [|done].
        repeat case_match; simpl; done.
      - repeat case_match; simpl; done. }
    destruct (write E obj st) as [[[]|e] st1]; simpl in *; [|done].
    destruct (IH st1 Hn1) as [? Hp2]. split; [done|]. by rewrite Hp2. }
  unfold init in Hi.
  pose proof (next_stream_named (fresh pat mc ms k, w)) as Hn0.
  pose proof (next_stream_frame E (fresh pat mc ms k, w)) as (_ & _ & _ & Hp0 & _).
  rewrite Hi in Hn0, Hp0. simpl in *.
  destruct (Hall objs st0 (Hn0 I)) as [Hn Hp]. rewrite Hw in Hn, Hp. simpl in *.
  unfold named in Hn. rewrite Ht in Hn. destruct Hn as (s & f & ? & ? & Hfmt).
  exists s, f. rewrite Hp, Hp0 in *. done.
Qed.

Lemma close_accounts n0 st :
  snug n0 st →
  let st' := snd (close E st) in
  written n0 (snd st') = written n0 (snd st) ∧
  total (fst st') = total (fst st) ∧
  ∀ h s, (n0 ≤ h)%nat → streams (snd st') !! h = Some s →
         Z.of_nat (length (s_records s)) ≤ Z.max (maxcount (fst st)) 1.
Proof.
  destruct st as [o w]. intros Hs. rewrite close_spec.
  destruct (finish_snug E n0 (o, w) Hs) as ((_ & _ & _ & _ & Hcap) & Hw & Ht & _).
  pose proof (finish_frame E (o, w)) as (_ & _ & _ & _ & Hm & _).
  destruct (finish E (o, w)) as [[[]|e] [o1 w1]]; simpl in *.
  - rewrite <- Hm. repeat case_match; simpl; done.
  - rewrite <- Hm. done.
Qed.


(** X9.  The limit on records is a hard one: no archive writer made in a
    session holds more than maxcount records (one record, when maxcount is
    below 1). *)
Theorem session_count_cap (pat : string) (mc : Z) (ms : pyfloat) (k : KW)
    (objs : list sample) (w : World KW sample) (r : Res unit)
    (st : St KW sample) (h : nat) (s : Stream KW sample) :
  session E pat mc ms k objs w = (r, st) →
  (length (streams w) ≤ h)%nat →
  streams (snd st) !! h = Some s →
  Z.of_nat (length (s_records s)) ≤ Z.max mc 1.
Proof.
  unfold session.
  destruct (init E pat mc ms k w) as [[[]|e] st0] eqn:Hi.
  - destruct (init_snug E _ _ _ _ _ _ Hi) as (Hs0 & _ & _ & Hm0).
    destruct (write_all_snug E _ objs st0 Hs0) as (Hs1 & _).
    destruct (close_accounts _ _ Hs1) as (_ & _ & Hcap).
    assert (Hm : maxcount (fst (snd (write_all E objs st0))) = mc).
    { rewrite <- Hm0. clear. revert st0.
      induction objs as [|obj objs IH]; intros st0; [done|].
      simpl. unfold bind.
      assert (Hp : maxcount (fst (snd (write E obj st0))) = maxcount (fst st0)).
      { destruct st0 as [o w]. rewrite write_spec. cbv zeta.
        pose proof (next_stream_frame E (o, w)) as (_ & Hp & _).
        destruct (must_rotate (o, w)) as [[b|e] st1] eqn:Hm.
        2:{ by rewrite (must_rotate_state _ _ _ _ Hm). }
        destruct b.
        - destruct (next_stream E (o, w)) as [[[]|e] [o1 w1]]; simpl in *; [|done].
          repeat case_match; simpl; done.
        - repeat case_match; simpl; done. }
      destruct (write E obj st0) as [[[]|e] st1]; simpl in *; [|done].
      by rewrite IH. }
    unfold with_block, enter, exit, ret.
    destruct (write_all E objs st0) as [rb st1]. simpl in *.
    rewrite Hm in Hcap.
    destruct (close E st1) as [[[]|e] st2]; simpl in *;
      intros [= <- <-]; eauto.
  - intros [= <- <-] Hge Hl.
    pose proof (init_raise pat mc ms k w) as Hraise.
    rewrite Hi in Hraise. simpl in *. destruct (Hraise e eq_refl) as [Hstr _].
    rewrite Hstr in Hl. apply lookup_lt_Some in Hl. lia.
Qed.

(** X10.  While the archive writer's [close] does not raise, an instance
    has at most one archive writer open at any time: after the constructor
    and any writes, returned or raised, each archive writer it made has
    either been closed exactly once or is the one [tarstream] holds and has
    not been closed. *)
Theorem one_open_shard (pat : string) (mc : Z) (ms : pyfloat) (k : KW)
    (objs : list sample) (w : World KW sample) (st0 st : St KW sample)
    (r : Res unit) (h : nat) (s : Stream KW sample) :
  (∀ w h, tar_close E w h = None) →
  init E pat mc ms k w = (Ok tt, st0) →
  write_all E objs st0 = (r, st) →
  (length (streams w) ≤ h)%nat →
  streams (snd st) !! h = Some s →
  s_closes s = 1%nat ∨
  (s_closes s = 0%nat ∧ tarstream (fst st) = Some (Some h)).
Proof.
  intros Hclose Hi Hw Hge Hl.
  pose proof (write_all_ready E Hclose objs _ _ (init_ready E Hclose _ _ _ _ _ _ Hi))
    as (Ht & _).
  rewrite Hw in Ht. unfold tidy in Ht. simpl in Ht.
  destruct (tarstream (fst st)) as [[h0|]|]; [| |done].
  - destruct Ht as (_ & _ & _ & Hcl). specialize (Hcl h s Hge Hl).
    case_decide; [subst; by right|by left].
  - left. eauto.
Qed.

End Facts.

(** *** The theorems at concrete sessions *)

Lemma finish_then_write_witness :
  finish sized demo3 = (Ok tt, Demo.demo3_finished) ∧
  write sized (Some 4) Demo.demo3_finished = (Ok tt, Demo.demo3_rewritten) ∧
  shard (fst demo3) = Some 0 ∧
  shard (fst Demo.demo3_rewritten) = Some (counter (snd demo3)) ∧
  counter (snd Demo.demo3_rewritten) = counter (snd demo3) + 1 ∧
  count (fst Demo.demo3_rewritten) = Some 1 ∧
  total (fst Demo.demo3_rewritten) = total (fst demo3) + 1 ∧
  tarstream (fst Demo.demo3_rewritten)
    = Some (Some (length (streams (snd demo3)))) ∧
  s_records <$> streams (snd Demo.demo3_rewritten)
                  !! length (streams (snd demo3))
    = Some [Some 4].
Proof.
  split; [vm_compute; reflexivity|].
  split; [vm_compute; reflexivity|]. split; [vm_compute; reflexivity|].
  apply (finish_then_write sized (Some 4) demo3 Demo.demo3_finished
           Demo.demo3_rewritten); vm_compute; reflexivity.
Defined.


Lemma cap_three_rotated :
  write sized (Some 6) Demo.cap_two = (Ok tt, Demo.cap_three) ∧
  must_rotate Demo.cap_two = (Ok true, Demo.cap_two) ∧
  count (fst Demo.cap_three) = Some 1 ∧ size (fst Demo.cap_three) = Some 6 ∧
  s_records <$> streams (snd Demo.cap_three)
    = [[Some 6; Some 6]; [Some 6]].
Proof. vm_compute. auto. Qed.

Lemma open_shard_named_witness :
  init sized Demo.shard_pattern 2 default_maxsize tt (world0 0)
    = (Ok tt, Demo.session_start) ∧
  write_all sized Demo.session_samples Demo.session_start
    = (Raise (OSError "write failed"), Demo.session_written) ∧
  tarstream (fst Demo.session_written) = Some (Some 1%nat) ∧
  ∃ s f, shard (fst Demo.session_written) = Some s ∧
         fname (fst Demo.session_written) = Some f ∧
         pattern (fst Demo.session_written) = Demo.shard_pattern ∧
         PyFormat.format Demo.shard_pattern s = PyFormat.Formatted f.
Proof.
  split; [vm_compute; reflexivity|].
  split; [vm_compute; reflexivity|].
  split; [vm_compute; reflexivity|].
  apply (open_shard_named sized Demo.shard_pattern 2 default_maxsize tt
           (world0 0) Demo.session_samples Demo.session_start
           Demo.session_written (Raise (OSError "write failed")) 1);
    vm_compute; reflexivity.
Defined.


Lemma session_count_cap_witness :
  ∃ r st s,
    session sized Demo.shard_pattern 2 default_maxsize tt Demo.session_samples
      (world0 0) = (r, st) ∧
    streams (snd st) !! 0%nat = Some s ∧
    s_records s = [Some 1; Some 2] ∧
    Z.of_nat (length (s_records s)) ≤ Z.max 2 1.
Proof.
  eexists _, _, _. split; [vm_compute; reflexivity|].
  split; [vm_compute; reflexivity|]. split; [vm_compute; reflexivity|].
  eapply (session_count_cap sized Demo.shard_pattern 2 default_maxsize tt
            Demo.session_samples (world0 0) _ _ 0);
    [vm_compute; reflexivity | vm_compute; lia | vm_compute; reflexivity].
Defined.

Lemma one_open_shard_witness :
  ∃ s,
    streams (snd Demo.session_written) !! 1%nat = Some s ∧
    s_records s = [Some 3] ∧
    (s_closes s = 1%nat ∨
     (s_closes s = 0%nat ∧
      tarstream (fst Demo.session_written) = Some (Some 1%nat))).
Proof.
  eexists. split; [vm_compute; reflexivity|]. split; [reflexivity|].
  apply (one_open_shard sized Demo.shard_pattern 2 default_maxsize tt
           Demo.session_samples (world0 0) Demo.session_start
           Demo.session_written (Raise (OSError "write failed")) 1);
    [reflexivity | vm_compute; reflexivity | vm_compute; reflexivity
    | vm_compute; lia | vm_compute; reflexivity].
Defined.

End WriterMore.

(** ** Formatted indices are told apart *)

Module PyFormatMoreFacts.
Import PyFormat PyFormatMore.
Local Open Scope string_scope.

Lemma append_inv_head (p a b : string) : p ++ a = p ++ b → a = b.
Proof. induction p as [|c p IH]; simpl; [done|]. intros [= H]. auto. Qed.

Lemma length_append (a b : string) :
  String.length (a ++ b) = (String.length a + String.length b)%nat.
Proof. induction a as [|c a IH]; simpl; [done|]. by rewrite IH. Qed.

Lemma append_inv_tail (a b t : string) : a ++ t = b ++ t → a = b.
Proof.
  revert b. induction a as [|c a IH]; intros [|c' b] H; simpl in *.
  - done.
  - apply (f_equal String.length) in H. simpl in H.
    rewrite length_append in H. lia.
  - apply (f_equal String.length) in H. simpl in H.
    rewrite length_append in H. lia.
  - injection H as -> H. f_equal. auto.
Qed.

Lemma value_zeros (k : nat) (s : string) :
  value (repeat_char "0" k ++ s) = value s.
Proof.
  induction k as [|k IH]; simpl; [done|].
  rewrite <- IH. unfold value. simpl.
  by destruct (NilEmpty.uint_of_string _).
Qed.

Lemma value_digits (n : Z) : value (digits n) = Some (Z.to_N n).
Proof.
  unfold value, digits.
  assert (Hs : NilZero.string_of_uint (N.to_uint (Z.to_N n))
               = NilEmpty.string_of_uint (N.to_uint (Z.to_N n))).
  { unfold NilZero.string_of_uint.
    destruct (N.to_uint (Z.to_N n)) eqn:Hd; try done.
    destruct (Z.to_N n) as [|q]; simpl in Hd; [done|].
    by apply DecimalPos.Unsigned.to_uint_nonnil in Hd. }
  rewrite Hs, NilEmpty.usu. simpl. by rewrite DecimalN.Unsigned.of_to.
Qed.

Lemma value_minus (s : string) : value (String "-" s) = None.
Proof. unfold value. simpl. by destruct (NilEmpty.uint_of_string s). Qed.

(** What [%d] writes, under zero padding: the sign, zeros, the digits. *)
Lemma format_long_shape f w p n :
  zero_padded f w = true →
  ∃ k, format_long f w p n
       = (if (n <? 0)%Z then "-"
          else if f_sign f then "+" else if f_blank f then " " else "")
         ++ repeat_char "0" k ++ digits (Z.abs n).
Proof.
  unfold zero_padded, format_long. intros [Hl Hz]%andb_true_iff.
  apply negb_true_iff in Hl. rewrite Hl.
  set (sg := if (n <? 0)%Z then "-" else _).
  set (ds := digits (Z.abs n)).
  set (a := (default 0%nat p - String.length ds)%nat).
  assert (Hrep : ∀ i j, repeat_char "0" i ++ repeat_char "0" j ++ ds
                        = repeat_char "0" (i + j) ++ ds).
  { intros i j. induction i as [|i IH]; simpl; [done|]. by rewrite IH. }
  destruct (f_zero f); simpl in Hz.
  - eexists. by rewrite Hrep.
  - destruct w; [done|]. simpl. by exists a.
Qed.

(** [%d] with zero padding never writes two integers the same way. *)
Lemma format_long_inj f w p (n m : Z) :
  zero_padded f w = true →
  format_long f w p n = format_long f w p m → n = m.
Proof.
  intros Hz H.
  destruct (format_long_shape f w p n Hz) as [k Hn].
  destruct (format_long_shape f w p m Hz) as [k' Hm].
  rewrite Hn, Hm in H. clear Hn Hm.
  assert (Hval : ∀ k z, value (repeat_char "0" k ++ digits (Z.abs z))
                        = Some (Z.to_N (Z.abs z))).
  { intros. by rewrite value_zeros, value_digits. }
  assert (Hsame : repeat_char "0" k ++ digits (Z.abs n)
                  = repeat_char "0" k' ++ digits (Z.abs m) →
                  Z.abs n = Z.abs m).
  { intros He. apply (f_equal value) in He. rewrite !Hval in He.
    injection He as He. lia. }
  assert (Hmix : ∀ k1 k2 z1 z2,
            "-" ++ repeat_char "0" k1 ++ digits (Z.abs z1)
            = (if f_sign f then "+" else if f_blank f then " " else "")
              ++ repeat_char "0" k2 ++ digits (Z.abs z2) → False).
  { intros k1 k2 z1 z2 He. destruct (f_sign f); [done|].
    destruct (f_blank f); [done|]. simpl in He.
    apply (f_equal value) in He. by rewrite value_minus, Hval in He. }
  destruct (Z.ltb_spec n 0), (Z.ltb_spec m 0).
  - apply append_inv_head in H. apply Hsame in H. lia.
  - by apply Hmix in H.
  - symmetry in H. by apply Hmix in H.
  - apply append_inv_head in H. apply Hsame in H. lia.
Qed.

Lemma site_names (pat pre post : string) (f : flags) (w p : option nat) :
  (∀ i, format pat i = Formatted (pre ++ format_long f w p i ++ post)) →
  zero_padded f w = true →
  ∀ n m a, format pat n = Formatted a → format pat m = Formatted a → n = m.
Proof.
  intros Hsite Hz n m a Hn Hm. rewrite Hsite in Hn, Hm.
  rewrite <- Hm in Hn. injection Hn as H.
  apply append_inv_head, append_inv_tail in H.
  by apply (format_long_inj f w p).
Qed.

Lemma append_assoc (a b c : string) : (a ++ b) ++ c = a ++ b ++ c.
Proof. induction a as [|x a IH]; simpl; [done|]. by rewrite IH. Qed.

(** The pattern of the examples is of that kind. *)
Lemma shard_pattern_site (i : Z) :
  format Demo.shard_pattern i
  = Formatted ("shard-" ++ format_long (Flags false false false false true)
                             (Some 6%nat) None i ++ ".tar").
Proof.
  unfold format, Demo.shard_pattern. cbn [scan feed]. simpl.
  by rewrite !append_assoc.
Qed.

(** X11.  A pattern that formats as fixed text around one [%d], padded
    with zeros or not at all, gives different names to different
    indices. *)
Theorem site_injective (pat pre post : string) (f : flags) (w p : option nat)
    (n m : Z) :
  (∀ i, format pat i = Formatted (pre ++ format_long f w p i ++ post)) →
  zero_padded f w = true →
  n ≠ m → format pat n ≠ format pat m.
Proof.
  intros Hsite Hz Hne H. apply Hne.
  apply (site_names pat pre post f w p Hsite Hz n m _ (Hsite n)).
  by rewrite <- H.
Qed.

Lemma site_injective_witness :
  format Demo.shard_pattern 9 = Formatted "shard-000009.tar" ∧
  format Demo.shard_pattern 10 = Formatted "shard-000010.tar" ∧
  format Demo.shard_pattern 9 ≠ format Demo.shard_pattern 10.
Proof.
  split; [vm_compute; reflexivity|]. split; [vm_compute; reflexivity|].
  apply (site_injective Demo.shard_pattern "shard-" ".tar"
           (Flags false false false false true) (Some 6%nat) None 9 10).
  - exact shard_pattern_site.
  - reflexivity.
  - lia.
Defined.

End PyFormatMoreFacts.

(** ** Several instances on one counter *)

Module FleetFacts.
Import Writer Ledger Fleet WriterFacts WriterMore.

Section Facts.
Context {KW sample : Type} (E : Env KW sample).

Lemma tame_step (m : M KW sample unit) :
  (∀ st, index_step (counter_cell E) st (snd (m st))) → tame E m.
Proof. intros H st. destruct (H st) as [[? ?]|[? ?]]; [left|right]; auto. Qed.

Lemma tame_write obj : tame E (write E obj).
Proof. apply tame_step, write_index. Qed.

Lemma tame_next_stream : tame E (next_stream E).
Proof. apply tame_step, next_stream_index. Qed.

Lemma tame_finish : tame E (finish E).
Proof. intros st. left. destruct (finish_index E st). auto. Qed.

Lemma tame_close : tame E (close E).
Proof. intros st. left. apply close_index. Qed.

(** While there is room, the successor is stored as it is. *)
Lemma room_store n (w : World KW sample) :
  room E (S n) w →
  Ctypes.store (counter_cell E) (counter w + 1) = counter w + 1.
Proof. intros [Hlo Hhi]. apply CtypesFacts.store_id. lia. Qed.

Lemma room_step n (w w' : World KW sample) :
  room E (S n) w →
  counter w' = counter w ∨
  counter w' = Ctypes.store (counter_cell E) (counter w + 1) →
  room E n w' ∧ counter w ≤ counter w' ≤ counter w + 1.
Proof.
  intros Hr Hc. pose proof (room_store n w Hr) as Hs.
  destruct Hr as [Hlo Hhi]. unfold room.
  destruct Hc as [-> | ->]; [|rewrite Hs]; lia.
Qed.

Lemma room_on n i (m : M KW sample unit) (fl : @fleet KW sample) :
  tame E m → room E (S n) (snd fl) → room E n (snd (on i m fl)).
Proof.
  intros Hm Hr. destruct fl as [objs w]. unfold on. simpl in *.
  destruct (objs !! i) as [o|] eqn:Hi.
  2:{ simpl. eapply room_step; [exact Hr|by left]. }
  specialize (Hm (o, w)).
  destruct (m (o, w)) as [r [o' w']]. simpl in *.
  eapply room_step; [exact Hr|]. destruct Hm as [[Hc _]|[Hc _]]; auto.
Qed.

Lemma room_call n c (fl : @fleet KW sample) :
  room E (S n) (snd fl) → room E n (snd (do_call E c fl)).
Proof.
  intros Hr. destruct c as [pat mc ms k|i obj|i|i|i]; simpl.
  - destruct fl as [objs w]. simpl in *.
    destruct (init_index E pat mc ms k w) as (Hc & _).
    destruct (init E pat mc ms k w) as [[[]|e] [o w']]; simpl in *;
      (eapply room_step; [exact Hr|by right]).
  - apply room_on; [apply tame_write|done].
  - apply room_on; [apply tame_finish|done].
  - apply room_on; [apply tame_close|done].
  - apply room_on; [apply tame_next_stream|done].
Qed.

Lemma fair_on n i (m : M KW sample unit) (fl : @fleet KW sample) :
  tame E m → room E (S n) (snd fl) → fair fl → fair (on i m fl).
Proof.
  intros Hm Hr Hfair. destruct fl as [objs w]. unfold on. simpl in *.
  destruct (objs !! i) as [o|] eqn:Hi; [|done].
  specialize (Hm (o, w)). pose proof (room_store n w Hr) as Hst.
  destruct (m (o, w)) as [r [o' w']]. simpl in Hm. rewrite Hst in Hm.
  pose proof (lookup_lt_Some _ _ _ Hi) as Hlt.
  assert (Hcw : counter w ≤ counter w') by (destruct Hm as [[Hc _]|[Hc _]]; lia).
  intros i0 o0 s Hl Hs. simpl in *.
  destruct (decide (i0 = i)) as [->|Hne].
  - rewrite list_lookup_insert_eq in Hl by done. injection Hl as <-.
    destruct Hm as [[Hc [Hsh|Hsh]]|[Hc Hsh]].
    + rewrite Hsh in Hs. destruct (Hfair i o s Hi Hs) as [Hb Hd]. simpl in *.
      split; [lia|]. intros j o1 Hj Hl1.
      rewrite list_lookup_insert_ne in Hl1 by done. eauto.
    + congruence.
    + rewrite Hsh in Hs. injection Hs as <-. split; [lia|].
      intros j o1 Hj Hl1 Hs1.
      rewrite list_lookup_insert_ne in Hl1 by done.
      destruct (Hfair j o1 _ Hl1 Hs1) as [Hb _]. simpl in Hb. lia.
  - rewrite list_lookup_insert_ne in Hl by done.
    destruct (Hfair i0 o0 s Hl Hs) as [Hb Hd]. simpl in *.
    split; [lia|]. intros j o1 Hj Hl1.
    destruct (decide (j = i)) as [->|Hji].
    + rewrite list_lookup_insert_eq in Hl1 by done. injection Hl1 as <-.
      destruct Hm as [[Hc [Hsh|Hsh]]|[Hc Hsh]]; rewrite Hsh.
      * by apply (Hd i o).
      * done.
      * intros [= Heq]. lia.
    + rewrite list_lookup_insert_ne in Hl1 by done. eauto.
Qed.

Lemma fair_call n c (fl : @fleet KW sample) :
  room E (S n) (snd fl) → fair fl → fair (do_call E c fl).
Proof.
  intros Hr Hfair. destruct c as [pat mc ms k|i obj|i|i|i]; simpl.
  - destruct fl as [objs w]. simpl in *.
    destruct (init_index E pat mc ms k w) as (Hc & Hsh).
    rewrite (room_store n w Hr) in Hc.
    destruct (init E pat mc ms k w) as [[[]|e] [o w']]; simpl in *.
    + intros i0 o0 s Hl Hs. simpl in *.
      destruct (decide (i0 < length objs)%nat) as [Hlt|Hge].
      * rewrite lookup_app_l in Hl by done.
        destruct (Hfair i0 o0 s Hl Hs) as [Hb Hd]. simpl in *.
        split; [lia|]. intros j o1 Hj Hl1.
        destruct (decide (j < length objs)%nat) as [Hjlt|Hjge].
        -- rewrite lookup_app_l in Hl1 by done. eauto.
        -- rewrite lookup_app_r in Hl1 by lia.
           destruct (j - length objs)%nat; simpl in Hl1; [|done].
           injection Hl1 as <-. rewrite Hsh. intros [= Heq]. lia.
      * rewrite lookup_app_r in Hl by lia.
        destruct (i0 - length objs)%nat eqn:Hd0; simpl in Hl; [|done].
        injection Hl as <-. rewrite Hsh in Hs. injection Hs as <-.
        split; [lia|]. intros j o1 Hj Hl1 Hs1.
        destruct (decide (j < length objs)%nat) as [Hjlt|Hjge].
        -- rewrite lookup_app_l in Hl1 by done.
           destruct (Hfair j o1 _ Hl1 Hs1) as [Hb _]. simpl in Hb. lia.
        -- rewrite lookup_app_r in Hl1 by lia.
           destruct (j - length objs)%nat eqn:Hd1; simpl in Hl1; [|done]. lia.
    + intros i0 o0 s Hl Hs. simpl in *.
      destruct (Hfair i0 o0 s Hl Hs) as [Hb Hd]. simpl in *.
      split; [lia|]. eauto.
  - eapply fair_on; [apply tame_write|exact Hr|done].
  - eapply fair_on; [apply tame_finish|exact Hr|done].
  - eapply fair_on; [apply tame_close|exact Hr|done].
  - eapply fair_on; [apply tame_next_stream|exact Hr|done].
Qed.

Lemma fair_calls cs : ∀ fl : @fleet KW sample,
  room E (length cs) (snd fl) → fair fl → fair (do_calls E cs fl).
Proof.
  induction cs as [|c cs IH]; intros fl Hr Hfair; [done|].
  simpl in *. apply IH.
  - by apply room_call.
  - by apply (fair_call (length cs)).
Qed.

(** X12.  Instances made on one counter and used in any order, one call
    at a time (constructor calls, writes, [finish], [close], [next_stream],
    failing or not), where the counter's cell has room for one increment
    per call: at every moment no two instances hold the same shard index,
    and every index held is below the counter. *)
Theorem fleet_indices_distinct (cs : list call) (w : World KW sample)
    (i j : nat) (o o' : Obj KW) (s : Z) :
  let fl := do_calls E cs ([], w) in
  Ctypes.lo (counter_cell E) ≤ counter w →
  counter w + Z.of_nat (length cs) ≤ Ctypes.hi (counter_cell E) →
  fst fl !! i = Some o → fst fl !! j = Some o' → i ≠ j →
  shard o = Some s →
  shard o' ≠ Some s ∧ s < counter (snd fl).
Proof.
  intros fl Hlo Hhi Hi Hj Hne Hs.
  assert (Hfair : fair fl).
  { apply fair_calls; [by split|]. intros i0 o0 s0 Hl. done. }
  destruct (Hfair i o s Hi Hs) as [Hb Hd]. split; [|done]. eauto.
Qed.

Lemma filed_world pat n0 (objs objs' : list (Obj KW)) (w w' : World KW sample) :
  filed pat n0 (objs, w) →
  (∀ i o, objs' !! i = Some o → pattern o = pat) →
  ((opened w' = opened w ∧ counter w ≤ counter w') ∨
   (∃ f, opened w' = opened w ++ [f] ∧
         PyFormat.format pat (counter w) = PyFormat.Formatted f ∧
         counter w' = counter w + 1)) →
  filed pat n0 (objs', w').
Proof.
  intros (_ & Hn & idxs & Hall & Hlt & Hnd) Hpat Hstep. simpl in *.
  split; [done|]. simpl.
  destruct Hstep as [[Ho Hc]|(f & Ho & Hf & Hc)]; rewrite Ho.
  - split; [done|]. exists idxs. split_and!; try done.
    eapply Forall_impl; [exact Hlt|]. simpl. intros; lia.
  - rewrite length_app. split; [lia|]. exists (idxs ++ [counter w]).
    rewrite drop_app_le by done. split_and!.
    + apply Forall2_app; [done|]. by constructor.
    + apply Forall_app. split.
      * eapply Forall_impl; [exact Hlt|]. simpl. intros; lia.
      * constructor; [lia|constructor].
    + apply NoDup_app. split_and!; [done| |apply NoDup_singleton].
      intros s Hs Hs'. apply list_elem_of_singleton in Hs'. subst s.
      rewrite Forall_forall in Hlt. specialize (Hlt _ Hs). lia.
Qed.

(** With room in the cell, a step that opens goes up by one. *)
Lemma opens_in_room n (st st' : St KW sample) :
  room E (S n) (snd st) → opens (counter_cell E) st st' →
  (opened (snd st') = opened (snd st) ∧ counter (snd st) ≤ counter (snd st')) ∨
  (∃ f, opened (snd st') = opened (snd st) ++ [f] ∧
        PyFormat.format (pattern (fst st)) (counter (snd st))
          = PyFormat.Formatted f ∧
        counter (snd st') = counter (snd st) + 1).
Proof.
  intros Hr [_ Hstep]. rewrite (room_store n _ Hr) in Hstep.
  destruct Hstep as [[Ho Hc]|(f & Ho & Hf & Hc)].
  - left. split; [done|]. destruct Hc; lia.
  - right. eauto.
Qed.

Lemma filed_on n pat n0 i (m : M KW sample unit) (fl : @fleet KW sample) :
  (∀ st, opens (counter_cell E) st (snd (m st))) →
  room E (S n) (snd fl) →
  filed pat n0 fl → filed pat n0 (on i m fl).
Proof.
  intros Hm Hr Hfiled. destruct fl as [objs w]. unfold on. simpl in *.
  destruct (objs !! i) as [o|] eqn:Hi; [|done].
  specialize (Hm (o, w)).
  pose proof (opens_in_room n (o, w) _ Hr Hm) as Hstep.
  destruct (m (o, w)) as [r [o' w']].
  destruct Hm as [Hp _]. simpl in *.
  pose proof Hfiled as (Hpat & _). simpl in Hpat.
  pose proof (Hpat i o Hi) as Hpo.
  apply (filed_world pat n0 objs _ w); [done| |by rewrite <- Hpo].
  intros j o1 Hl. destruct (decide (j = i)) as [->|Hne].
  - apply list_lookup_insert_Some in Hl as [(_ & <- & _)|[? _]]; [|done].
    congruence.
  - rewrite list_lookup_insert_ne in Hl by done. eauto.
Qed.

Lemma filed_call n pat n0 c (fl : @fleet KW sample) :
  same_pattern pat c → room E (S n) (snd fl) →
  filed pat n0 fl → filed pat n0 (do_call E c fl).
Proof.
  intros Hc Hr Hfiled. destruct c as [p mc ms k|i obj|i|i|i]; simpl in *.
  - subst p. destruct fl as [objs w]. simpl in *.
    pose proof (init_opens E pat mc ms k w) as Hopens.
    pose proof (opens_in_room n (fresh pat mc ms k, w) _ Hr Hopens) as Hstep.
    destruct Hopens as [Hp _].
    pose proof Hfiled as (Hpat & _). simpl in *.
    destruct (init E pat mc ms k w) as [[[]|e] [o w']]; simpl in *.
    + apply (filed_world pat n0 objs _ w); [done| |done].
      intros j o1 Hl. apply lookup_app_Some in Hl as [Hl|[_ Hl]]; [eauto|].
      destruct (j - length objs)%nat; simpl in Hl; [|done]. congruence.
    + by apply (filed_world pat n0 objs _ w).
  - eapply filed_on; [apply write_opens|exact Hr|done].
  - eapply filed_on; [apply finish_opens|exact Hr|done].
  - eapply filed_on; [apply close_opens|exact Hr|done].
  - eapply filed_on; [apply next_stream_opens|exact Hr|done].
Qed.

Lemma filed_calls pat n0 cs : ∀ fl : @fleet KW sample,
  Forall (same_pattern pat) cs → room E (length cs) (snd fl) →
  filed pat n0 fl → filed pat n0 (do_calls E cs fl).
Proof.
  induction cs as [|c cs IH]; intros fl Hcs Hr Hfiled; [done|].
  apply Forall_cons in Hcs as [Hc Hcs]. simpl in *.
  apply IH; [done|by apply room_call|]. by apply (filed_call (length cs)).
Qed.

Lemma names_distinct pat (names : list string) (idxs : list Z) :
  (∀ n m a, PyFormat.format pat n = PyFormat.Formatted a →
            PyFormat.format pat m = PyFormat.Formatted a → n = m) →
  Forall2 (λ f s, PyFormat.format pat s = PyFormat.Formatted f) names idxs →
  NoDup idxs → NoDup names.
Proof.
  intros Hinj Hall. induction Hall as [|f s names idxs Hf Hall IH].
  - constructor.
  - intros [Hs Hnd]%NoDup_cons. constructor; [|auto].
    intros Hin. apply list_elem_of_lookup in Hin as [i Hi].
    destruct (Forall2_lookup_l _ _ _ _ _ Hall Hi) as (s' & Hi' & Hf').
    apply Hs. rewrite (Hinj _ _ _ Hf Hf'). by eapply list_elem_of_lookup_2.
Qed.

(** X13.  Instances with one and the same pattern on one counter, used
    in any order, where the counter's cell has room for one increment per
    call: if the pattern gives different names to different indices, no
    file is opened twice; the files opened since the start are pairwise
    different. *)
Theorem no_file_opened_twice (pat : string) (cs : list call)
    (w : World KW sample) :
  Ctypes.lo (counter_cell E) ≤ counter w →
  counter w + Z.of_nat (length cs) ≤ Ctypes.hi (counter_cell E) →
  Forall (same_pattern pat) cs →
  (∀ n m a, PyFormat.format pat n = PyFormat.Formatted a →
            PyFormat.format pat m = PyFormat.Formatted a → n = m) →
  NoDup (drop (length (opened w)) (opened (snd (do_calls E cs ([], w))))).
Proof.
  intros Hlo Hhi Hcs Hinj.
  assert (Hstart : filed pat (length (opened w)) (([] : list (Obj KW)), w)).
  { split; [done|]. split; [done|]. exists []. simpl. rewrite drop_all.
    split_and!; constructor. }
  assert (Hroom : room E (length cs) w) by (by split).
  destruct (filed_calls pat _ cs ([], w) Hcs Hroom Hstart)
    as (_ & _ & idxs & Hall & _ & Hnd).
  by apply (names_distinct pat _ idxs).
Qed.

End Facts.

(** *** The theorems at a concrete run *)

Lemma fleet_indices_distinct_witness :
  let fl := do_calls sized Demo.fleet_calls ([], world0 0) in
  ∃ o o',
    fst fl !! 1%nat = Some o ∧ fst fl !! 0%nat = Some o' ∧
    shard o = Some 3 ∧ shard o' = Some 2 ∧
    shard o' ≠ Some 3 ∧ 3 < counter (snd fl).
Proof.
  intros fl. eexists _, _. split; [vm_compute; reflexivity|].
  split; [vm_compute; reflexivity|]. split; [vm_compute; reflexivity|].
  split; [vm_compute; reflexivity|].
  eapply (fleet_indices_distinct sized Demo.fleet_calls (world0 0) 1 0 _ _ 3);
    [vm_compute; discriminate | vm_compute; discriminate
    | vm_compute; reflexivity | vm_compute; reflexivity | lia
    | vm_compute; reflexivity].
Defined.

Lemma no_file_opened_twice_witness :
  opened (snd (do_calls sized Demo.fleet_calls ([], world0 0)))
    = ["shard-000000.tar"; "shard-000001.tar"; "shard-000002.tar";
       "shard-000003.tar"]%string ∧
  NoDup (drop (length (opened (world0 0)))
           (opened (snd (do_calls sized Demo.fleet_calls ([], world0 0))))).
Proof.
  split; [vm_compute; reflexivity|].
  apply (no_file_opened_twice sized Demo.shard_pattern Demo.fleet_calls
           (world0 0)).
  - vm_compute; discriminate.
  - vm_compute; discriminate.
  - repeat constructor.
  - exact (PyFormatMoreFacts.site_names Demo.shard_pattern _ _ _ _ None
             PyFormatMoreFacts.shard_pattern_site eq_refl).
Defined.

(** Without room in the cell the indices repeat.  Two instances on a
    [Value('B', 0)] hold the indices 0 and 1; 255 rotations of the second
    one later both hold index 0, and the file of index 0 has been opened a
    second time. *)
Lemma fleet_index_repeats :
  let fl := do_calls (sized_on Ctypes.uint8) Demo.crowded_calls ([], world0 0) in
  shard <$> fst fl = [Some 0; Some 0] ∧
  opened (snd fl) !! 0%nat = Some "shard-000000.tar"%string ∧
  opened (snd fl) !! 256%nat = Some "shard-000000.tar"%string ∧
  ¬ NoDup (opened (snd fl)).
Proof.
  intros fl.
  assert (H0 : opened (snd fl) !! 0%nat = Some "shard-000000.tar"%string)
    by (vm_compute; reflexivity).
  assert (H256 : opened (snd fl) !! 256%nat = Some "shard-000000.tar"%string)
    by (vm_compute; reflexivity).
  split; [vm_compute; reflexivity|]. split; [exact H0|]. split; [exact H256|].
  intros Hnd. pose proof (proj1 (NoDup_alt _) Hnd _ _ _ H0 H256). discriminate.
Qed.

End FleetFacts.
